(** * The nextjs build-command resource: tokenizer and build pipeline

    Shallow embedding of [internal/provider/nextjs_build_command.go]:
    the quote-aware splitter [safeSplit] and the lifecycle callbacks
    [Create] and [Update] of the [BuildCommand] resource.

    Go strings are byte sequences; they are embedded as [string]
    (sequences of [ascii], i.e. of bytes). *)

From Stdlib Require Import String Ascii List Bool Arith Lia.
Import ListNotations.
Open Scope string_scope.
Open Scope list_scope.

(** ** The part of Go's [strings] package that [safeSplit] calls *)

Module strings.

(** [s[n:]] *)
Fixpoint drop (n : nat) (s : string) : string :=
  match n, s with
  | O, _ => s
  | S _, EmptyString => EmptyString
  | S k, String _ s' => drop k s'
  end.

(** [s[:n]] *)
Fixpoint take (n : nat) (s : string) : string :=
  match n, s with
  | O, _ => EmptyString
  | S _, EmptyString => EmptyString
  | S k, String a s' => String a (take k s')
  end.

(** [len(s) >= len(prefix) && s[:len(prefix)] == prefix] *)
Definition HasPrefix (s prefix : string) : bool :=
  Nat.leb (String.length prefix) (String.length s)
  && (take (String.length prefix) s =? prefix).

(** [len(s) >= len(suffix) && s[len(s)-len(suffix):] == suffix] *)
Definition HasSuffix (s suffix : string) : bool :=
  Nat.leb (String.length suffix) (String.length s)
  && (drop (String.length s - String.length suffix) s =? suffix).

Definition TrimPrefix (s prefix : string) : string :=
  if HasPrefix s prefix then drop (String.length prefix) s else s.

Definition TrimSuffix (s suffix : string) : string :=
  if HasSuffix s suffix
  then take (String.length s - String.length suffix) s
  else s.

(** [strings.Split(s, sep)] for a separator of one byte, the only way
    [safeSplit] calls it: the pieces of [s] between the occurrences of
    [sep], one more piece than there are occurrences (so [Split "" sep]
    is the one-element list holding the empty string). *)
Fixpoint Split (s : string) (sep : ascii) : list string :=
  match s with
  | EmptyString => [EmptyString]
  | String a s' =>
      if Ascii.eqb a sep then EmptyString :: Split s' sep
      else match Split s' sep with
           | w :: ws => String a w :: ws
           | [] => [String a EmptyString]
           end
  end.

(** [strings.Join(elems, sep)] *)
Fixpoint Join (elems : list string) (sep : string) : string :=
  match elems with
  | [] => EmptyString
  | [e] => e
  | e :: rest => e ++ sep ++ Join rest sep
  end.

End strings.

(** ** [safeSplit] *)

(** [string(b)] for a byte [b]: the UTF-8 encoding of the code point [b];
    one byte below 0x80, two bytes from there on. *)
Definition string_of_byte (b : ascii) : string :=
  let n := nat_of_ascii b in
  if Nat.ltb n 128 then String b EmptyString
  else String (ascii_of_nat (192 + n / 64))
         (String (ascii_of_nat (128 + n mod 64)) EmptyString).

(** [i[0]]; the index is in range wherever [safeSplit] evaluates it. *)
Definition byte0 (i : string) : ascii :=
  match i with
  | String a _ => a
  | EmptyString => zero
  end.

Definition space : ascii := " "%char.
Definition squote : string := "'".
Definition dquote : string := String (ascii_of_nat 34) EmptyString.

(** The three variables the loop of [safeSplit] updates. *)
Record SplitState : Type := mkSplitState {
  result : list string;
  inquote : string;
  block : string
}.

Definition split_init : SplitState :=
  {| result := []; inquote := ""; block := "" |}.

(** One iteration of [for _, i := range split]. *)
Definition split_step (st : SplitState) (i : string) : SplitState :=
  if inquote st =? "" then
    if strings.HasPrefix i squote || strings.HasPrefix i dquote then
      let q := string_of_byte (byte0 i) in
      {| result := result st;
         inquote := q;
         block := strings.TrimPrefix i q ++ " " |}
    else
      {| result := result st ++ [i];
         inquote := inquote st;
         block := block st |}
  else
    if negb (strings.HasSuffix i (inquote st)) then
      {| result := result st;
         inquote := inquote st;
         block := block st ++ i ++ " " |}
    else
      {| result :=
           result st ++ [(block st ++ strings.TrimSuffix i (inquote st))%string];
         inquote := "";
         block := "" |}.

(** The state in which the loop leaves after the words [ws]. *)
Definition split_loop (st : SplitState) (ws : list string) : SplitState :=
  fold_left split_step ws st.

Definition split_run (s : string) : SplitState :=
  split_loop split_init (strings.Split s space).

Definition safeSplit (s : string) : list string :=
  result (split_run s).

(** Whether byte [c] occurs in [s]. *)
Fixpoint contains (c : ascii) (s : string) : bool :=
  match s with
  | EmptyString => false
  | String a s' => Ascii.eqb a c || contains c s'
  end.

(** The test of [safeSplit] for a word that opens a quoted span. *)
Definition starts_quote (i : string) : bool :=
  strings.HasPrefix i squote || strings.HasPrefix i dquote.

(** The two bytes that open a quoted span. *)
Definition is_quote (q : ascii) : Prop :=
  String q EmptyString = squote \/ String q EmptyString = dquote.

(** What the words [ws] add to [block] while the loop stays in quote mode. *)
Fixpoint buffered (ws : list string) : string :=
  match ws with
  | [] => EmptyString
  | w :: ws' => (w ++ " " ++ buffered ws')%string
  end.

(** ** Values of the plugin framework the resource handles *)

(** Go's [error], as far as the resource looks at one: its message and
    whether [os.IsNotExist] holds of it. *)
Record error : Type := mkError {
  Error : string;
  IsNotExist : bool
}.

Inductive Severity : Type := SeverityError | SeverityWarning.

Record Diagnostic : Type := mkDiagnostic {
  severity : Severity;
  Summary : string;
  Detail : string
}.

Definition Diagnostics : Type := list Diagnostic.

Definition Severity_eqb (a b : Severity) : bool :=
  match a, b with
  | SeverityError, SeverityError => true
  | SeverityWarning, SeverityWarning => true
  | _, _ => false
  end.

Definition Diagnostic_eqb (a b : Diagnostic) : bool :=
  Severity_eqb (severity a) (severity b)
  && (Summary a =? Summary b)%string
  && (Detail a =? Detail b)%string.

Definition Contains (diags : Diagnostics) (d : Diagnostic) : bool :=
  existsb (Diagnostic_eqb d) diags.

(** [diags.Append(in...)]: a diagnostic already held is not added again. *)
Definition Append (diags : Diagnostics) (new : list Diagnostic) : Diagnostics :=
  fold_left (fun acc d => if Contains acc d then acc else acc ++ [d]) new diags.

Definition NewErrorDiagnostic (summary detail : string) : Diagnostic :=
  {| severity := SeverityError; Summary := summary; Detail := detail |}.

Definition AddError (diags : Diagnostics) (summary detail : string)
  : Diagnostics :=
  Append diags [NewErrorDiagnostic summary detail].

Definition HasError (diags : Diagnostics) : bool :=
  existsb (fun d => Severity_eqb (severity d) SeverityError) diags.

(** [types.String]: null, unknown, or a known string. *)
Inductive tfString : Type :=
| StringNull
| StringUnknown
| StringValue (s : string).

Definition IsNull (v : tfString) : bool :=
  match v with StringNull => true | _ => false end.

Definition IsUnknown (v : tfString) : bool :=
  match v with StringUnknown => true | _ => false end.

(** [ValueString]: the known value, the empty string otherwise. *)
Definition ValueString (v : tfString) : string :=
  match v with StringValue s => s | _ => "" end.

(** [types.List] over elements of type [A]. *)
Inductive tfList (A : Type) : Type :=
| ListNull
| ListUnknown
| ListValue (elems : list A).
Arguments ListNull {A}.
Arguments ListUnknown {A}.
Arguments ListValue {A} elems.

(** [attr.Type]; every attribute the resource builds is a string. *)
Inductive attrType : Type := StringType.

(** [types.Object] whose attributes are strings: a map from attribute
    names to values, kept as an association list. *)
Inductive tfObject : Type :=
| ObjectNull
| ObjectUnknown
| ObjectKnown (attrs : list (string * tfString)).

Fixpoint lookup {A : Type} (k : string) (m : list (string * A)) : option A :=
  match m with
  | [] => None
  | (k', v) :: m' => if (k =? k')%string then Some v else lookup k m'
  end.

Definition Attribute (o : tfObject) (name : string) : option tfString :=
  match o with
  | ObjectKnown attrs => lookup name attrs
  | _ => None
  end.

Definition has_key {A : Type} (m : list (string * A)) (k : string) : bool :=
  match lookup k m with Some _ => true | None => false end.

(** [types.ObjectValue(attributeTypes, attributes)]: every declared
    attribute needs a value and every value a declared attribute (here of
    the one type there is); otherwise an error diagnostic and the unknown
    object. *)
Definition ObjectValue (attributeTypes : list (string * attrType))
  (attributes : list (string * tfString)) : tfObject * Diagnostics :=
  if forallb (fun kt => has_key attributes (fst kt)) attributeTypes
     && forallb (fun kv => has_key attributeTypes (fst kv)) attributes
  then (ObjectKnown attributes, [])
  else (ObjectUnknown,
        [NewErrorDiagnostic "Invalid Object Attribute Type"
           "Object attributes do not agree with the attribute types."]).

(** [BuildCommandModel] *)
Record BuildCommandModel : Type := mkModel {
  SourcePath : tfString;
  Commands : tfList tfString;
  Data : tfList tfObject
}.

(** [data.Data = listValue] *)
Definition set_Data (data : BuildCommandModel) (listValue : tfList tfObject)
  : BuildCommandModel :=
  {| SourcePath := SourcePath data;
     Commands := Commands data;
     Data := listValue |}.

(** [BuildCommand] *)
Record BuildCommand : Type := mkBuildCommand {
  executable : string
}.

(** [exec.Cmd]: the fields the resource sets or prints. *)
Record Cmd : Type := mkCmd {
  Path : string;
  Args : list string;
  Dir : string;
  Err : option error
}.

(** The [String] method of [exec.Cmd]. *)
Definition Cmd_String (c : Cmd) : string :=
  match Err c with
  | Some _ => strings.Join (Args c) " "
  | None =>
      Path c ++ String.concat "" (map (fun a => " " ++ a)%string (tl (Args c)))
  end.

(** What a request hands to the resource: the outcome of [req.Plan.Get]
    (its diagnostics and the model it filled in). *)
Record Request : Type := mkRequest {
  Plan_Get : Diagnostics * BuildCommandModel
}.

(** A response: the state it holds ([None]: no resource state) and the
    diagnostics collected. *)
Record Response : Type := mkResponse {
  State : option BuildCommandModel;
  Diags : Diagnostics
}.

Definition with_Diags (resp : Response) (diags : Diagnostics) : Response :=
  {| State := State resp; Diags := diags |}.

Definition resp_Append (resp : Response) (new : Diagnostics) : Response :=
  with_Diags resp (Append (Diags resp) new).

Definition resp_AddError (resp : Response) (summary detail : string)
  : Response :=
  with_Diags resp (AddError (Diags resp) summary detail).

(** [resp.State.Set(ctx, &data)]: the model's fields have the types of
    the schema, so the conversion yields no diagnostic. *)
Definition State_Set (resp : Response) (data : BuildCommandModel)
  : Response * Diagnostics :=
  ({| State := Some data; Diags := Diags resp |}, []).

(** ** What the resource asks of the machine it runs on

    Files, processes and the libraries that read them are outside the
    resource; it sees them through the operations below.  [World] is the
    state of the machine (files, search path); running a process may
    change it, looking at a file does not. *)
Class Platform : Type := {
  World : Type;
  (** the values [json.Unmarshal] stores into an [interface{}] *)
  Value : Type;
  (** the error of [os.Stat(path)], [None] for [nil] *)
  os_Stat : World -> string -> option error;
  (** the [Path] and [Err] that [exec.Command(name, ...)] settles on when
      it looks [name] up *)
  exec_resolve : World -> string -> string * option error;
  (** [command.Output()]: the machine afterwards, the standard output
      and the error *)
  cmd_Output : World -> Cmd -> World * string * option error;
  os_ReadFile : World -> string -> string * option error;
  json_Unmarshal : string -> Value + error;
  (** [path.Join(elem...)] *)
  path_Join : list string -> string;
  (** [list.ElementsAs(ctx, &elements, false)] into a [[]types.String] *)
  ElementsAs : tfList tfString -> list tfString * Diagnostics
}.

Definition is_some {A : Type} (o : option A) : bool :=
  match o with Some _ => true | None => false end.

Definition Source_Path_needed : Diagnostic :=
  NewErrorDiagnostic "Source Path needed"
    "Source Path needed in order to create Functions".

Definition Source_Path_not_Valid : Diagnostic :=
  NewErrorDiagnostic "Source Path is not Valid"
    "The Source Path either does not exist, or Terraform cannot access the Path.".

Definition Could_not_execute (command : Cmd) (err : error) : Diagnostic :=
  NewErrorDiagnostic ("Could not execute Command: " ++ Cmd_String command)
    (Error err).

Definition Unable_to_parse (file : string) (err : error) : Diagnostic :=
  NewErrorDiagnostic "Unable to parse NextJS State"
    ("The File: " ++ file
     ++ " could not be read and the following error was produced: "
     ++ Error err ++ ".").

(** [types.ListValueFrom(ctx, elementType, elements)] on objects of that
    very type. *)
Definition ListValueFrom (elements : list tfObject)
  : tfList tfObject * Diagnostics :=
  (ListValue elements, []).

Section Resource.

Context {P : Platform}.

Definition exists_ (w : World) (path : string) : bool * option error :=
  match os_Stat w path with
  | None => (true, None)
  | Some err => if IsNotExist err then (false, None) else (false, Some err)
  end.

(** [exec.Command(name, arg...)] *)
Definition exec_Command (w : World) (name : string) (arg : list string)
  : Cmd :=
  let '(lp, err) := exec_resolve w name in
  {| Path := lp; Args := name :: arg; Dir := ""; Err := err |}.

Definition set_Dir (c : Cmd) (dir : string) : Cmd :=
  {| Path := Path c; Args := Args c; Dir := dir; Err := Err c |}.

(** How the loop over the commands ends: the machine it leaves, the
    commands it ran, in order, and the command that failed, if one
    did. *)
Record LoopResult : Type := mkLoopResult {
  loop_world : World;
  loop_ran : list Cmd;
  loop_failed : option (Cmd * error)
}.

(** [for index, element := range elements { ... }] of [Create] *)
Fixpoint run_commands (r : BuildCommand) (dir : string)
  (elements : list tfString) (w : World) : LoopResult :=
  match elements with
  | [] => {| loop_world := w; loop_ran := []; loop_failed := None |}
  | element :: rest =>
      let commandArgs := safeSplit (ValueString element) in
      let command := set_Dir (exec_Command w (executable r) commandArgs) dir in
      let '(w', _, err) := cmd_Output w command in
      match err with
      | Some e =>
          {| loop_world := w'; loop_ran := [command];
             loop_failed := Some (command, e) |}
      | None =>
          let later := run_commands r dir rest w' in
          {| loop_world := loop_world later;
             loop_ran := command :: loop_ran later;
             loop_failed := loop_failed later |}
      end
  end.

(** What a callback leaves behind: the machine, the commands it ran, in
    order, and the response. *)
Record Outcome : Type := mkOutcome {
  world : World;
  ran : list Cmd;
  response : Response
}.

(** [BuildCommand.Create]; the calls of [tflog] are left out. *)
Definition Create (r : BuildCommand) (w : World) (req : Request)
  (resp : Response) : Outcome :=
  let '(pdiags, data) := Plan_Get req in
  let resp := resp_Append resp pdiags in
  if HasError (Diags resp) then mkOutcome w [] resp else
  if IsNull (SourcePath data) || IsUnknown (SourcePath data) then
    mkOutcome w []
      (resp_AddError resp "Source Path needed"
         "Source Path needed in order to create Functions")
  else
  let '(exist_, err) := exists_ w (ValueString (SourcePath data)) in
  if negb exist_ || is_some err then
    mkOutcome w []
      (resp_AddError resp "Source Path is not Valid"
         "The Source Path either does not exist, or Terraform cannot access the Path.")
  else
  let '(elements, diags) := ElementsAs (Commands data) in
  if HasError diags then mkOutcome w [] resp else
  let lr := run_commands r (ValueString (SourcePath data)) elements w in
  match loop_failed lr with
  | Some (command, err) =>
      mkOutcome (loop_world lr) (loop_ran lr)
        (resp_AddError resp
           ("Could not execute Command: " ++ Cmd_String command) (Error err))
  | None =>
      let w := loop_world lr in
      let nextJSStateFile :=
        path_Join [ValueString (SourcePath data); ".serverless";
                   "serverless-state.json"] in
      let '(exist_, err) := exists_ w nextJSStateFile in
      if negb exist_ || is_some err then
        mkOutcome w (loop_ran lr)
          (resp_AddError resp "Source Path is not Valid"
             "The Source Path either does not exist, or Terraform cannot access the Path.")
      else
      let '(plan, _) := os_ReadFile w nextJSStateFile in
      match json_Unmarshal plan with
      | inr err =>
          mkOutcome w (loop_ran lr)
            (resp_AddError resp "Unable to parse NextJS State"
               ("The File: " ++ nextJSStateFile
                ++ " could not be read and the following error was produced: "
                ++ Error err ++ "."))
      | inl nextJSState =>
          let mapElements :=
            [("path", StringValue "value1");
             ("sha256", StringValue "value2");
             ("function_name", StringValue "value3")] in
          let elementTypes :=
            [("path", StringType);
             ("sha256", StringType);
             ("function_name", StringType)] in
          let '(mapValue, diags) := ObjectValue elementTypes mapElements in
          if HasError diags then mkOutcome w (loop_ran lr) resp else
          let listElements := [mapValue] in
          let '(listValue, diags) := ListValueFrom listElements in
          if HasError diags then mkOutcome w (loop_ran lr) resp else
          let data := set_Data data listValue in
          let '(resp, sdiags) := State_Set resp data in
          mkOutcome w (loop_ran lr) (resp_Append resp sdiags)
      end
  end.

(** [BuildCommand.Update] *)
Definition Update (r : BuildCommand) (w : World) (req : Request)
  (resp : Response) : Outcome :=
  let '(pdiags, data) := Plan_Get req in
  let resp := resp_Append resp pdiags in
  if HasError (Diags resp) then mkOutcome w [] resp else
  let '(resp, sdiags) := State_Set resp data in
  mkOutcome w [] (resp_Append resp sdiags).

(** The argument vector [Create] gives the process of one command, and
    the command it builds for it on machine [w]. *)
Definition argv_of (r : BuildCommand) (element : tfString) : list string :=
  executable r :: safeSplit (ValueString element).

Definition command_of (r : BuildCommand) (dir : string) (w : World)
  (element : tfString) : Cmd :=
  set_Dir (exec_Command w (executable r) (safeSplit (ValueString element)))
    dir.

End Resource.

(** ** The other callbacks of the resource, and the provider *)

(** How often byte [c] occurs in [s]. *)
Fixpoint count_byte (c : ascii) (s : string) : nat :=
  match s with
  | EmptyString => 0
  | String a s' => (if Ascii.eqb a c then 1 else 0) + count_byte c s'
  end.

(** What the loop of [safeSplit] keeps true of [inquote] and [block]. *)
Definition split_inv (st : SplitState) : Prop :=
  (inquote st = "" /\ block st = "")
  \/ inquote st = squote
  \/ inquote st = dquote.

(** The artifact list [Create] stores. *)
Definition stored : tfList tfObject :=
  ListValue [ObjectKnown [("path", StringValue "value1");
                          ("sha256", StringValue "value2");
                          ("function_name", StringValue "value3")]].

(** The dynamic values ([any]) a provider hands to its resources: [nil],
    a string, or a value of another type, of which the name that [%T]
    prints is kept. *)
Inductive any : Type :=
| any_nil
| any_string (s : string)
| any_other (typeName : string).

(** [NewBuildCommand]: the resource with the zero [executable]. *)
Definition NewBuildCommand : BuildCommand := {| executable := "" |}.

(** [BuildCommand.Configure]: the resource afterwards and the diagnostics
    of the response. *)
Definition BuildCommand_Configure (r : BuildCommand) (ProviderData : any)
  (diags : Diagnostics) : BuildCommand * Diagnostics :=
  match ProviderData with
  | any_nil => (r, diags)
  | any_string executable => ({| executable := executable |}, diags)
  | any_other typeName =>
      (r,
       AddError diags "Unexpected Resource Configure Type"
         ("Expected string, got: " ++ typeName
          ++ ". Please report this issue to the provider developers."))
  end.

(** What a request hands to [Read] and [Delete]: the outcome of
    [req.State.Get]. *)
Record StateRequest : Type := mkStateRequest {
  State_Get : Diagnostics * BuildCommandModel
}.

(** [NextJSProviderModel] *)
Record NextJSProviderModel : Type := mkProviderModel {
  Executable : tfString
}.

(** What a request hands to the provider's [Configure]: the outcome of
    [req.Config.Get]. *)
Record ConfigRequest : Type := mkConfigRequest {
  Config_Get : Diagnostics * NextJSProviderModel
}.

(** The response of the provider's [Configure]. *)
Record ConfigureResponse : Type := mkConfigureResponse {
  cfg_Diags : Diagnostics;
  ResourceData : any
}.

Section Lifecycle.

Context {P : Platform}.


(** [BuildCommand.Delete] *)
Definition Delete (r : BuildCommand) (w : World) (req : StateRequest)
  (resp : Response) : Outcome :=
  let '(gdiags, data) := State_Get req in
  let resp := resp_Append resp gdiags in
  if HasError (Diags resp) then mkOutcome w [] resp else
  mkOutcome w [] resp.

(** [detectExecutableVersion]: the machine afterwards, the command it
    ran, and the pair it returns. *)
Definition detectExecutableVersion (w : World) (executable : string)
  : World * Cmd * (option error * string) :=
  let command := exec_Command w executable ["-v"] in
  let '(w', result, err) := cmd_Output w command in
  match err with
  | Some e => (w', command, (Some e, ""))
  | None => (w', command, (None, result))
  end.

(** What the provider's [Configure] leaves behind. *)
Record ConfigureOutcome : Type := mkConfigureOutcome {
  cfg_world : World;
  cfg_ran : list Cmd;
  cfg_response : ConfigureResponse
}.

Definition cfg_AddError (resp : ConfigureResponse) (summary detail : string)
  : ConfigureResponse :=
  {| cfg_Diags := AddError (cfg_Diags resp) summary detail;
     ResourceData := ResourceData resp |}.

(** [NextJSProvider.Configure]; the calls of [tflog] are left out. *)
Definition NextJSProvider_Configure (w : World) (req : ConfigRequest)
  (resp : ConfigureResponse) : ConfigureOutcome :=
  let '(gdiags, data) := Config_Get req in
  let resp :=
    {| cfg_Diags := Append (cfg_Diags resp) gdiags;
       ResourceData := ResourceData resp |} in
  if HasError (cfg_Diags resp) then mkConfigureOutcome w [] resp else
  if IsNull (Executable data) then
    let '(w', command, (err, version)) := detectExecutableVersion w "npm" in
    match err with
    | Some e =>
        mkConfigureOutcome w' [command]
          (cfg_AddError resp "Error detecting NPM!"
             ("Error detecting NPM version: " ++ Error e))
    | None =>
        let data := {| Executable := StringValue "npm" |} in
        mkConfigureOutcome w' [command]
          {| cfg_Diags := cfg_Diags resp;
             ResourceData := any_string (ValueString (Executable data)) |}
    end
  else
    let '(w', command, (err, version)) :=
      detectExecutableVersion w (ValueString (Executable data)) in
    match err with
    | Some e =>
        mkConfigureOutcome w' [command]
          (cfg_AddError resp
             ("Error detecting " ++ ValueString (Executable data) ++ "!")
             ("Error detecting NPM version: " ++ Error e))
    | None =>
        mkConfigureOutcome w' [command]
          {| cfg_Diags := cfg_Diags resp;
             ResourceData := any_string (ValueString (Executable data)) |}
    end.

(** The executable the provider settles on for a configuration. *)
Definition configured_executable (data : NextJSProviderModel) : string :=
  if IsNull (Executable data) then "npm" else ValueString (Executable data).

End Lifecycle.

(** ** A small machine to run the callbacks on

    Files are an association list from paths to contents.  A process whose
    first argument is [fail] exits with status 1; [run-script build]
    writes the state file under its working directory; any other process
    succeeds and changes nothing. *)
Module Machine.

Definition Files : Type := list (string * string).

(** A stand-in for decoded JSON. *)
#[local] Unset Elimination Schemes.
Inductive Json : Type :=
| JString (s : string)
| JArray (elems : list Json)
| JObject (fields : list (string * Json)).

Definition quoted (s : string) : string := dquote ++ s ++ dquote.

(** The text of a state file with one artifact entry. *)
Definition state_text : string :=
  "{" ++ quoted "artifacts" ++ ":[{"
  ++ quoted "path" ++ ":" ++ quoted "a.zip" ++ ","
  ++ quoted "sha" ++ ":" ++ quoted "abc" ++ ","
  ++ quoted "fn" ++ ":" ++ quoted "f1" ++ "}]}".

Definition state_doc : Json :=
  JObject [("artifacts",
            JArray [JObject [("path", JString "a.zip");
                             ("sha", JString "abc");
                             ("fn", JString "f1")]])].
#[local] Set Elimination Schemes.

Definition ENOENT : error :=
  {| Error := "no such file or directory"; IsNotExist := true |}.

Definition exit1 : error :=
  {| Error := "exit status 1"; IsNotExist := false |}.

Definition stat (w : Files) (path : string) : option error :=
  match lookup path w with
  | Some _ => None
  | None => Some ENOENT
  end.

Definition output (w : Files) (c : Cmd) : Files * string * option error :=
  match tl (Args c) with
  | sub :: rest =>
      if (sub =? "fail")%string then (w, "", Some exit1)
      else if (sub =? "run-script")%string
              && (strings.Join rest " " =? "build")%string
      then (((Dir c ++ "/.serverless/serverless-state.json")%string,
             state_text) :: w,
            "built", None)
      else (w, "", None)
  | [] => (w, "", None)
  end.

Definition readFile (w : Files) (path : string) : string * option error :=
  match lookup path w with
  | Some content => (content, None)
  | None => ("", Some ENOENT)
  end.

Definition unmarshal (text : string) : Json + error :=
  if (text =? state_text)%string then inl state_doc
  else inr {| Error := "invalid character"; IsNotExist := false |}.

Definition elementsAs (l : tfList tfString) : list tfString * Diagnostics :=
  match l with
  | ListValue elems => (elems, [])
  | ListNull => ([], [])
  | ListUnknown =>
      ([], [NewErrorDiagnostic "Value Conversion Error"
              "Received unknown value"])
  end.

#[export] Instance platform : Platform := {|
  World := Files;
  Value := Json;
  os_Stat := stat;
  exec_resolve := fun _ name => ("/usr/bin/" ++ name, None)%string;
  cmd_Output := output;
  os_ReadFile := readFile;
  json_Unmarshal := unmarshal;
  path_Join := fun elems => strings.Join elems "/";
  ElementsAs := elementsAs
|}.

Definition npm : BuildCommand := {| executable := "npm" |}.

(** A machine on which the source directory [/app] exists. *)
Definition disk : World := [("/app", "")].

Definition plan (commands : list string) : Request :=
  {| Plan_Get :=
       ([], {| SourcePath := StringValue "/app";
               Commands := ListValue (map StringValue commands);
               Data := ListUnknown |}) |}.

Definition fresh : Response := {| State := None; Diags := [] |}.

(** A machine without the source directory. *)
Definition empty_disk : World := [].

Definition state_file : string := "/app/.serverless/serverless-state.json".

(** The artifact the state file describes, as an object of [data]. *)
Definition described_artifact : tfObject :=
  ObjectKnown [("path", StringValue "a.zip");
               ("sha256", StringValue "abc");
               ("function_name", StringValue "f1")].

End Machine.


(** * Properties *)

(** ** Strings *)

Lemma Split_not_nil (s : string) (sep : ascii) : strings.Split s sep <> [].
Proof.
  destruct s as [|a s]; simpl; [discriminate|].
  destruct (Ascii.eqb a sep); [discriminate|].
  destruct (strings.Split s sep); discriminate.
Qed.

Lemma Split_no_sep (s : string) (sep : ascii) :
  contains sep s = false -> strings.Split s sep = [s].
Proof.
  induction s as [|a s IH]; simpl; intros H; [reflexivity|].
  apply orb_false_iff in H. destruct H as [Ha Hs].
  rewrite Ha, (IH Hs). reflexivity.
Qed.

Lemma Split_app (s1 s2 : string) (sep : ascii) :
  strings.Split (s1 ++ String sep s2) sep
  = strings.Split s1 sep ++ strings.Split s2 sep.
Proof.
  induction s1 as [|a s1 IH]; simpl.
  - rewrite Ascii.eqb_refl. reflexivity.
  - destruct (Ascii.eqb a sep).
    + rewrite IH. reflexivity.
    + rewrite IH.
      pose proof (Split_not_nil s1 sep) as Hne.
      destruct (strings.Split s1 sep) as [|w ws]; [contradiction|].
      reflexivity.
Qed.

Lemma Join_cons_char (a : ascii) (w : string) (ws : list string)
  (sep : string) :
  strings.Join (String a w :: ws) sep = String a (strings.Join (w :: ws) sep).
Proof. destruct ws; reflexivity. Qed.

Lemma Join_cons (e e' : string) (rest : list string) (sep : string) :
  strings.Join (e :: e' :: rest) sep
  = (e ++ sep ++ strings.Join (e' :: rest) sep)%string.
Proof. reflexivity. Qed.

Lemma Join_cons_byte (e e' : string) (rest : list string) (sep : ascii) :
  strings.Join (e :: e' :: rest) (String sep EmptyString)
  = (e ++ String sep (strings.Join (e' :: rest) (String sep EmptyString)))%string.
Proof. reflexivity. Qed.

Lemma Join_Split (s : string) (sep : ascii) :
  strings.Join (strings.Split s sep) (String sep EmptyString) = s.
Proof.
  induction s as [|a s IH]; simpl; [reflexivity|].
  pose proof (Split_not_nil s sep) as Hne.
  destruct (Ascii.eqb_spec a sep) as [->|Ha].
  - destruct (strings.Split s sep) as [|w ws]; [contradiction|].
    rewrite Join_cons, IH. reflexivity.
  - destruct (strings.Split s sep) as [|w ws]; [contradiction|].
    rewrite Join_cons_char, IH. reflexivity.
Qed.

Lemma Split_Join (ws : list string) (sep : ascii) :
  ws <> [] ->
  Forall (fun w => contains sep w = false) ws ->
  strings.Split (strings.Join ws (String sep EmptyString)) sep = ws.
Proof.
  induction ws as [|e ws IH]; intros Hne Hall; [contradiction|].
  inversion Hall as [|? ? He Hws]; subst.
  destruct ws as [|e' rest].
  - simpl. apply Split_no_sep. exact He.
  - rewrite Join_cons_byte.
    rewrite Split_app, (Split_no_sep _ _ He), IH by (assumption || discriminate).
    reflexivity.
Qed.

Lemma Split_words_no_sep (s : string) (sep : ascii) :
  Forall (fun w => contains sep w = false) (strings.Split s sep).
Proof.
  induction s as [|a s IH]; simpl.
  - constructor; [reflexivity|constructor].
  - destruct (Ascii.eqb a sep) eqn:Ha.
    + constructor; [reflexivity|exact IH].
    + destruct (strings.Split s sep) as [|w ws].
      * constructor; [simpl; rewrite Ha; reflexivity|constructor].
      * inversion IH; subst. constructor; [simpl; rewrite Ha|]; assumption.
Qed.

Lemma append_assoc (a b c : string) :
  ((a ++ b) ++ c)%string = (a ++ b ++ c)%string.
Proof. induction a as [|x a IH]; simpl; [|rewrite IH]; reflexivity. Qed.

Lemma append_nil_r (a : string) : (a ++ "")%string = a.
Proof. induction a as [|x a IH]; simpl; [|rewrite IH]; reflexivity. Qed.

Lemma length_append (a b : string) :
  String.length (a ++ b) = String.length a + String.length b.
Proof. induction a as [|x a IH]; simpl; [|rewrite IH]; reflexivity. Qed.

Lemma drop_append (a b : string) :
  strings.drop (String.length a) (a ++ b) = b.
Proof. induction a as [|x a IH]; simpl; [reflexivity|exact IH]. Qed.

Lemma take_append (a b : string) :
  strings.take (String.length a) (a ++ b) = a.
Proof.
  induction a as [|x a IH]; simpl; [destruct b|rewrite IH]; reflexivity.
Qed.

Lemma contains_append (c : ascii) (a b : string) :
  contains c (a ++ b) = contains c a || contains c b.
Proof.
  induction a as [|x a IH]; simpl; [reflexivity|].
  rewrite IH, orb_assoc. reflexivity.
Qed.

(** ** One word at a time *)

Lemma HasPrefix_byte (q a : ascii) (body : string) :
  strings.HasPrefix (String a body) (String q EmptyString) = Ascii.eqb a q.
Proof.
  unfold strings.HasPrefix. simpl.
  destruct (Ascii.eqb a q); reflexivity.
Qed.

Lemma starts_quote_inv (i : string) :
  starts_quote i = true ->
  exists q body, i = String q body /\ is_quote q.
Proof.
  unfold starts_quote. destruct i as [|a body]; [discriminate|].
  unfold squote, dquote. rewrite !HasPrefix_byte. intros H.
  exists a, body. split; [reflexivity|].
  apply orb_true_iff in H. destruct H as [H|H];
    apply Ascii.eqb_eq in H; subst; [left|right]; reflexivity.
Qed.

Lemma starts_quote_cons (q : ascii) (body : string) :
  is_quote q -> starts_quote (String q body) = true.
Proof.
  intros [H|H]; inversion H; subst; unfold starts_quote, squote, dquote;
    rewrite !HasPrefix_byte; reflexivity.
Qed.

Lemma quote_byte (q : ascii) :
  is_quote q -> string_of_byte q = String q EmptyString.
Proof. intros [H|H]; inversion H; reflexivity. Qed.

Lemma quote_not_space (q : ascii) : is_quote q -> Ascii.eqb q space = false.
Proof. intros [H|H]; inversion H; reflexivity. Qed.

Lemma TrimPrefix_byte (q : ascii) (body : string) :
  strings.TrimPrefix (String q body) (String q EmptyString) = body.
Proof.
  unfold strings.TrimPrefix. rewrite HasPrefix_byte, Ascii.eqb_refl.
  reflexivity.
Qed.

Lemma HasSuffix_closing (w : string) (q : ascii) :
  strings.HasSuffix (w ++ String q EmptyString) (String q EmptyString) = true.
Proof.
  unfold strings.HasSuffix. rewrite length_append. simpl String.length.
  replace (String.length w + 1 - 1) with (String.length w) by lia.
  rewrite drop_append, String.eqb_refl.
  replace (String.length w + 1) with (S (String.length w)) by lia.
  reflexivity.
Qed.

Lemma TrimSuffix_closing (w : string) (q : ascii) :
  strings.TrimSuffix (w ++ String q EmptyString) (String q EmptyString) = w.
Proof.
  unfold strings.TrimSuffix. rewrite HasSuffix_closing, length_append.
  simpl String.length.
  replace (String.length w + 1 - 1) with (String.length w) by lia.
  apply take_append.
Qed.

Lemma step_plain (st : SplitState) (i : string) :
  inquote st = "" -> starts_quote i = false ->
  split_step st i
  = {| result := result st ++ [i]; inquote := ""; block := block st |}.
Proof.
  intros Hq Hi. unfold split_step. rewrite Hq. simpl.
  fold (starts_quote i). rewrite Hi. reflexivity.
Qed.

Lemma step_open (st : SplitState) (q : ascii) (body : string) :
  inquote st = "" -> is_quote q ->
  split_step st (String q body)
  = {| result := result st;
       inquote := String q EmptyString;
       block := body ++ " " |}.
Proof.
  intros Hq Hquote. unfold split_step. rewrite Hq. simpl String.eqb. cbv iota.
  fold (starts_quote (String q body)).
  rewrite (starts_quote_cons q body Hquote).
  simpl byte0. rewrite (quote_byte q Hquote), TrimPrefix_byte. reflexivity.
Qed.

Lemma step_inside (st : SplitState) (i : string) :
  inquote st <> "" -> strings.HasSuffix i (inquote st) = false ->
  split_step st i
  = {| result := result st;
       inquote := inquote st;
       block := block st ++ i ++ " " |}.
Proof.
  intros Hq Hi. unfold split_step.
  apply String.eqb_neq in Hq. rewrite Hq, Hi. reflexivity.
Qed.

Lemma step_close (st : SplitState) (i : string) :
  inquote st <> "" -> strings.HasSuffix i (inquote st) = true ->
  split_step st i
  = {| result :=
         result st ++ [(block st ++ strings.TrimSuffix i (inquote st))%string];
       inquote := "";
       block := "" |}.
Proof.
  intros Hq Hi. unfold split_step.
  apply String.eqb_neq in Hq. rewrite Hq, Hi. reflexivity.
Qed.

(** ** Runs of words *)

Lemma loop_app (st : SplitState) (ws1 ws2 : list string) :
  split_loop st (ws1 ++ ws2) = split_loop (split_loop st ws1) ws2.
Proof. apply fold_left_app. Qed.

Lemma loop_plain (ws : list string) : forall st,
  inquote st = "" ->
  Forall (fun w => starts_quote w = false) ws ->
  split_loop st ws
  = {| result := result st ++ ws; inquote := ""; block := block st |}.
Proof.
  induction ws as [|w ws IH]; intros st Hq Hall.
  - simpl. rewrite app_nil_r. destruct st; simpl in *; subst; reflexivity.
  - inversion Hall as [|? ? Hw Hws]; subst. simpl.
    rewrite (step_plain st w Hq Hw), IH by (assumption || reflexivity).
    simpl. rewrite <- app_assoc. reflexivity.
Qed.

Lemma loop_inside (ws : list string) : forall st,
  inquote st <> "" ->
  Forall (fun w => strings.HasSuffix w (inquote st) = false) ws ->
  split_loop st ws
  = {| result := result st;
       inquote := inquote st;
       block := block st ++ buffered ws |}.
Proof.
  induction ws as [|w ws IH]; intros st Hq Hall.
  - simpl. rewrite append_nil_r. destruct st; reflexivity.
  - inversion Hall as [|? ? Hw Hws]; subst. simpl.
    rewrite (step_inside st w Hq Hw), IH by assumption.
    simpl. rewrite !append_assoc. reflexivity.
Qed.

Lemma Join_buffered (mids : list string) : forall first last,
  strings.Join (first :: mids ++ [last]) " "
  = (first ++ " " ++ buffered mids ++ last)%string.
Proof.
  induction mids as [|m mids IH]; intros first last.
  - reflexivity.
  - change (first :: (m :: mids) ++ [last])
      with (first :: m :: (mids ++ [last])).
    rewrite Join_cons, IH. simpl buffered.
    rewrite !append_assoc. reflexivity.
Qed.

Lemma buffered_app (ws1 ws2 : list string) :
  buffered (ws1 ++ ws2) = (buffered ws1 ++ buffered ws2)%string.
Proof.
  induction ws1 as [|w ws1 IH]; simpl; [reflexivity|].
  rewrite IH, !append_assoc. reflexivity.
Qed.

Lemma safeSplit_Join (ws : list string) :
  ws <> [] ->
  Forall (fun w => contains space w = false) ws ->
  safeSplit (strings.Join ws " ") = result (split_loop split_init ws).
Proof.
  intros Hne Hall. unfold safeSplit, split_run.
  change " " with (String space EmptyString).
  rewrite Split_Join by assumption. reflexivity.
Qed.

Lemma loop_unterminated (pre rest : list string) (q : ascii) (body : string) :
  inquote (split_loop split_init pre) = "" ->
  is_quote q ->
  Forall (fun w => strings.HasSuffix w (String q EmptyString) = false) rest ->
  split_loop split_init (pre ++ String q body :: rest)
  = {| result := result (split_loop split_init pre);
       inquote := String q EmptyString;
       block := body ++ " " ++ buffered rest |}.
Proof.
  intros Hpre Hq Hrest.
  rewrite loop_app. simpl split_loop at 1. 
  change (fold_left split_step rest ?st) with (split_loop st rest).
  rewrite (step_open _ q body Hpre Hq).
  rewrite loop_inside; simpl; [|discriminate|assumption].
  rewrite append_assoc. reflexivity.
Qed.

(** The words of an input that leaves the loop in quote mode: those
    before the word that opened the span, that word, and the words the
    loop buffered after it. *)
Lemma loop_in_quote_inv (ws : list string) :
  inquote (split_loop split_init ws) <> "" ->
  exists pre open rest,
    ws = pre ++ open :: rest
    /\ inquote (split_loop split_init pre) = ""
    /\ starts_quote open = true
    /\ Forall (fun w =>
                 strings.HasSuffix w (string_of_byte (byte0 open)) = false)
         rest
    /\ split_loop split_init ws
       = {| result := result (split_loop split_init pre);
            inquote := string_of_byte (byte0 open);
            block :=
              strings.TrimPrefix open (string_of_byte (byte0 open))
              ++ " " ++ buffered rest |}.
Proof.
  induction ws as [|x ws' IH] using rev_ind; intros Hin.
  - exfalso. apply Hin. reflexivity.
  - assert (Hlast : split_loop split_init (ws' ++ [x])
                    = split_step (split_loop split_init ws') x)
      by (rewrite loop_app; reflexivity).
    rewrite Hlast in Hin |- *. clear Hlast.
    destruct (String.eqb_spec (inquote (split_loop split_init ws')) "")
      as [Hout|Hquoted].
    + destruct (starts_quote x) eqn:Hx.
      * exists ws', x, []. repeat split; try assumption; [constructor|].
        destruct (starts_quote_inv x Hx) as (q & body & -> & Hq).
        rewrite (step_open _ q body Hout Hq). simpl byte0.
        rewrite (quote_byte q Hq), TrimPrefix_byte. reflexivity.
      * rewrite (step_plain _ x Hout Hx) in Hin. exfalso. apply Hin.
        reflexivity.
    + destruct (IH Hquoted) as (pre & open & rest & -> & Hpre & Hopen & Hrest & Hst).
      rewrite Hst in Hin, Hquoted |- *. simpl inquote in Hquoted.
      destruct (strings.HasSuffix x (string_of_byte (byte0 open))) eqn:Hx.
      * rewrite step_close in Hin; simpl; try assumption.
        exfalso. apply Hin. reflexivity.
      * exists pre, open, (rest ++ [x]).
        split; [rewrite <- app_assoc; reflexivity|].
        split; [assumption|]. split; [assumption|].
        split; [apply Forall_app; split; [assumption|constructor; [assumption|constructor]]|].
        rewrite step_inside; simpl; try assumption.
        rewrite buffered_app. simpl buffered.
        rewrite !append_assoc. reflexivity.
Qed.

(** ** The tokenizer's claims *)

(** C7. [safeSplit] gives the three example vectors, and in general a span
    that opens with a word starting with a quote byte and closes with a
    later word ending in that byte becomes one token: its words joined by
    single spaces, the two quote bytes removed; the plain words around it
    are tokens of their own. *)
Theorem safeSplit_vectors_and_quoted_span
  (q : ascii) (first last : string) (pre mids post : list string)
  (Hq : is_quote q)
  (Hwords : Forall (fun w => contains space w = false)
              (pre ++ first :: mids ++ last :: post))
  (Hpre : Forall (fun w => starts_quote w = false) pre)
  (Hpost : Forall (fun w => starts_quote w = false) post)
  (Hmids : Forall (fun w => strings.HasSuffix w (String q EmptyString) = false)
             mids) :
  safeSplit "install --cache .npm --prefer-offline"
  = ["install"; "--cache"; ".npm"; "--prefer-offline"]
  /\ safeSplit "run 'hello world' --flag" = ["run"; "hello world"; "--flag"]
  /\ safeSplit ("run " ++ dquote ++ "a b" ++ dquote ++ " c")
     = ["run"; "a b"; "c"]
  /\ safeSplit
       (strings.Join
          (pre ++ String q first :: mids
               ++ (last ++ String q EmptyString)%string :: post) " ")
     = pre ++ strings.Join (first :: mids ++ [last]) " " :: post.
Proof.
  split; [reflexivity|]. split; [reflexivity|]. split; [reflexivity|].
  apply Forall_app in Hwords. destruct Hwords as [Hpre_ns Hspan].
  inversion Hspan as [|? ? Hfirst Hspan']; subst.
  apply Forall_app in Hspan'. destruct Hspan' as [Hmids_ns Htail].
  inversion Htail as [|? ? Hlast Hpost_ns]; subst.
  rewrite safeSplit_Join.
  - rewrite loop_app, (loop_plain pre) by (assumption || reflexivity).
    simpl result. simpl block.
    change (split_loop ?st (String q first :: ?ws))
      with (split_loop (split_step st (String q first)) ws).
    rewrite step_open by (reflexivity || assumption). simpl result.
    rewrite loop_app, (loop_inside mids) by (assumption || discriminate).
    simpl result. simpl inquote. simpl block.
    change (split_loop ?st ((last ++ String q "")%string :: post))
      with (split_loop (split_step st (last ++ String q "")%string) post).
    rewrite step_close; simpl inquote;
      [|discriminate|apply HasSuffix_closing].
    simpl result. simpl block. rewrite TrimSuffix_closing.
    rewrite loop_plain by (assumption || reflexivity). simpl result.
    rewrite Join_buffered, <- app_assoc, !append_assoc. reflexivity.
  - destruct pre; discriminate.
  - apply Forall_app. split; [assumption|].
    constructor.
    + simpl. rewrite (quote_not_space q Hq). exact Hfirst.
    + apply Forall_app. split; [assumption|].
      constructor; [|assumption].
      rewrite contains_append, Hlast. simpl.
      rewrite (quote_not_space q Hq). reflexivity.
Qed.

Lemma safeSplit_vectors_and_quoted_span_witness :
  safeSplit "build 'one two three' --x"
  = ["build"; "one two three"; "--x"].
Proof.
  refine (proj2 (proj2 (proj2
    (safeSplit_vectors_and_quoted_span "'"%char "one" "three"
       ["build"] ["two"] ["--x"] _ _ _ _ _)))).
  - left. reflexivity.
  - repeat constructor.
  - repeat constructor.
  - repeat constructor.
  - repeat constructor.
Defined.

(** C8. An input that ends while the loop is in quote mode splits into the
    words before the word that opened the span, that word and the words
    after it; the tokens returned are exactly those of the words before,
    and the buffer, which holds the opened span, is not among them: it is
    left in [block] when the loop ends.  [safeSplit] is a total function,
    so nothing is raised. *)
Theorem safeSplit_unterminated_quote (s : string)
  (Hin : inquote (split_run s) <> "") :
  exists pre open rest,
    strings.Split s space = pre ++ open :: rest
    /\ inquote (split_loop split_init pre) = ""
    /\ starts_quote open = true
    /\ Forall (fun w =>
                 strings.HasSuffix w (string_of_byte (byte0 open)) = false)
         rest
    /\ block (split_run s)
       = (strings.TrimPrefix open (string_of_byte (byte0 open))
          ++ " " ++ buffered rest)%string
    /\ safeSplit s = result (split_loop split_init pre)
    /\ (pre = [] -> safeSplit s = [])
    /\ (pre <> [] -> safeSplit s = safeSplit (strings.Join pre " ")).
Proof.
  unfold split_run in Hin.
  destruct (loop_in_quote_inv _ Hin)
    as (pre & open & rest & Hws & Hpre & Hopen & Hrest & Hst).
  exists pre, open, rest. unfold safeSplit, split_run. rewrite Hst. simpl.
  repeat split; try assumption.
  - intros ->. reflexivity.
  - intros Hne. symmetry.
    change (result (split_loop split_init (strings.Split (strings.Join pre " ") space)))
      with (safeSplit (strings.Join pre " ")).
    apply safeSplit_Join; [assumption|].
    pose proof (Split_words_no_sep s space) as Hns.
    rewrite Hws in Hns. apply Forall_app in Hns. tauto.
Qed.

Lemma safeSplit_unterminated_quote_witness :
  exists pre open rest,
    strings.Split "run 'x y" space = pre ++ open :: rest
    /\ inquote (split_loop split_init pre) = ""
    /\ starts_quote open = true
    /\ Forall (fun w =>
                 strings.HasSuffix w (string_of_byte (byte0 open)) = false)
         rest
    /\ block (split_run "run 'x y")
       = (strings.TrimPrefix open (string_of_byte (byte0 open))
          ++ " " ++ buffered rest)%string
    /\ safeSplit "run 'x y" = result (split_loop split_init pre)
    /\ (pre = [] -> safeSplit "run 'x y" = [])
    /\ (pre <> [] -> safeSplit "run 'x y" = safeSplit (strings.Join pre " ")).
Proof.
  apply (safeSplit_unterminated_quote "run 'x y").
  vm_compute. discriminate.
Defined.

(** C9. When no word of the command starts with a quote byte, joining the
    tokens with single spaces and splitting again gives the same tokens. *)
Theorem safeSplit_rejoin_unquoted (s : string)
  (Hplain : Forall (fun w => starts_quote w = false) (strings.Split s space)) :
  safeSplit (strings.Join (safeSplit s) " ") = safeSplit s.
Proof.
  assert (Hs : safeSplit s = strings.Split s space).
  { unfold safeSplit, split_run.
    rewrite loop_plain by (assumption || reflexivity). reflexivity. }
  rewrite Hs at 1.
  change " " with (String space EmptyString).
  rewrite Join_Split. reflexivity.
Qed.

Lemma safeSplit_rejoin_unquoted_witness :
  safeSplit (strings.Join (safeSplit "install --cache  .npm") " ")
  = safeSplit "install --cache  .npm".
Proof.
  apply (safeSplit_rejoin_unquoted "install --cache  .npm").
  vm_compute. repeat constructor.
Defined.

(** C10. A word that both starts and ends with the same quote byte, read
    outside quote mode, only opens a span: the loop enters quote mode, the
    closing byte stays in the buffer and nothing is emitted.  When no later
    word ends with that byte the word is lost, as in ["run 'x'"]. *)
Theorem safeSplit_fully_quoted_word
  (st : SplitState) (q : ascii) (body : string) (pre rest : list string)
  (Hq : is_quote q)
  (Hends : strings.HasSuffix (String q body) (String q EmptyString) = true)
  (Hst : inquote st = "")
  (Hwords : Forall (fun w => contains space w = false)
              (pre ++ String q body :: rest))
  (Hpre : inquote (split_loop split_init pre) = "")
  (Hrest : Forall (fun w => strings.HasSuffix w (String q EmptyString) = false)
             rest) :
  safeSplit "run 'x'" = ["run"]
  /\ split_step st (String q body)
     = {| result := result st;
          inquote := String q EmptyString;
          block := body ++ " " |}
  /\ safeSplit (strings.Join (pre ++ String q body :: rest) " ")
     = result (split_loop split_init pre).
Proof.
  split; [reflexivity|]. split; [apply step_open; assumption|].
  rewrite safeSplit_Join; [|destruct pre; discriminate|assumption].
  rewrite loop_unterminated by assumption. reflexivity.
Qed.

Lemma safeSplit_fully_quoted_word_witness :
  safeSplit "run 'x'" = ["run"]
  /\ split_step split_init "'x'"
     = {| result := []; inquote := "'"; block := "x' " |}
  /\ safeSplit "run 'x' next" = ["run"].
Proof.
  apply (safeSplit_fully_quoted_word split_init "'"%char "x'" ["run"] ["next"]).
  - left. reflexivity.
  - reflexivity.
  - reflexivity.
  - repeat constructor.
  - reflexivity.
  - repeat constructor.
Defined.

(** ** Diagnostics *)

Lemma Diagnostic_eqb_refl (d : Diagnostic) : Diagnostic_eqb d d = true.
Proof.
  unfold Diagnostic_eqb. rewrite !String.eqb_refl.
  destruct (severity d); reflexivity.
Qed.

Lemma Diagnostic_eqb_eq (a b : Diagnostic) :
  Diagnostic_eqb a b = true -> a = b.
Proof.
  unfold Diagnostic_eqb. destruct a as [sa ma da], b as [sb mb db]. simpl.
  intros H. apply andb_true_iff in H. destruct H as [H Hd].
  apply andb_true_iff in H. destruct H as [Hs Hm].
  apply String.eqb_eq in Hd, Hm. subst.
  destruct sa, sb; try discriminate; reflexivity.
Qed.


Lemma Append_one (diags : Diagnostics) (d : Diagnostic) :
  Append diags [d] = if Contains diags d then diags else diags ++ [d].
Proof. reflexivity. Qed.

Lemma Append_one_In (diags : Diagnostics) (d : Diagnostic) :
  In d (Append diags [d]).
Proof.
  rewrite Append_one. destruct (Contains diags d) eqn:Hc.
  - unfold Contains in Hc. apply existsb_exists in Hc.
    destruct Hc as (d' & Hin & Heq). apply Diagnostic_eqb_eq in Heq.
    subst. exact Hin.
  - apply in_or_app. right. left. reflexivity.
Qed.

Lemma HasError_In (diags : Diagnostics) (d : Diagnostic) :
  In d diags -> severity d = SeverityError -> HasError diags = true.
Proof.
  intros Hin Hsev. unfold HasError. apply existsb_exists.
  exists d. split; [assumption|]. rewrite Hsev. reflexivity.
Qed.

Lemma AddError_HasError (diags : Diagnostics) (summary detail : string) :
  HasError (Append diags [NewErrorDiagnostic summary detail]) = true.
Proof.
  apply HasError_In with (d := NewErrorDiagnostic summary detail);
    [apply Append_one_In|reflexivity].
Qed.

(** ** The loop over the commands *)

Section Pipeline.

Context {P : Platform}.

Lemma command_of_Args r dir w element :
  Args (command_of r dir w element) = argv_of r element.
Proof.
  unfold command_of, exec_Command, argv_of.
  destruct (exec_resolve w (executable r)). reflexivity.
Qed.

Lemma command_of_Dir r dir w element :
  Dir (command_of r dir w element) = dir.
Proof. reflexivity. Qed.

Lemma run_commands_cons r dir element rest w :
  run_commands r dir (element :: rest) w
  = let command := command_of r dir w element in
    match cmd_Output w command with
    | (w', _, Some e) =>
        {| loop_world := w'; loop_ran := [command];
           loop_failed := Some (command, e) |}
    | (w', _, None) =>
        let later := run_commands r dir rest w' in
        {| loop_world := loop_world later;
           loop_ran := command :: loop_ran later;
           loop_failed := loop_failed later |}
    end.
Proof.
  simpl. fold (command_of r dir w element).
  destruct (cmd_Output w (command_of r dir w element)) as [[w' out] [e|]];
    reflexivity.
Qed.

(** Commands that all succeed, followed by whatever comes next. *)
Lemma run_commands_app r dir (ok later : list tfString) : forall w,
  loop_failed (run_commands r dir ok w) = None ->
  run_commands r dir (ok ++ later) w
  = let before := run_commands r dir ok w in
    let after := run_commands r dir later (loop_world before) in
    {| loop_world := loop_world after;
       loop_ran := loop_ran before ++ loop_ran after;
       loop_failed := loop_failed after |}.
Proof.
  induction ok as [|element ok IH]; intros w Hok.
  - simpl. destruct (run_commands r dir later w). reflexivity.
  - rewrite <- app_comm_cons, !run_commands_cons in *. cbv zeta in *.
    destruct (cmd_Output w (command_of r dir w element)) as [[w' out] [e|]].
    + discriminate.
    + simpl in Hok. cbv zeta. rewrite (IH w' Hok). reflexivity.
Qed.

(** The commands that succeeded are the commands of the list, in order,
    each run in the source directory. *)
Lemma run_commands_ok r dir (elements : list tfString) : forall w,
  loop_failed (run_commands r dir elements w) = None ->
  map Args (loop_ran (run_commands r dir elements w))
  = map (argv_of r) elements
  /\ Forall (fun c => Dir c = dir) (loop_ran (run_commands r dir elements w)).
Proof.
  induction elements as [|element rest IH]; intros w Hok.
  - split; [reflexivity|constructor].
  - rewrite run_commands_cons in *. cbv zeta in *.
    destruct (cmd_Output w (command_of r dir w element)) as [[w' out] [e|]].
    + discriminate.
    + cbn [loop_ran loop_failed map] in *.
      destruct (IH w' Hok) as [Hargs Hdir].
      rewrite Hargs, command_of_Args. split; [reflexivity|].
      constructor; [reflexivity|assumption].
Qed.

Lemma run_commands_fail r dir (ok later : list tfString) element err w :
  loop_failed (run_commands r dir ok w) = None ->
  snd (cmd_Output (loop_world (run_commands r dir ok w))
         (command_of r dir (loop_world (run_commands r dir ok w)) element))
  = Some err ->
  let before := run_commands r dir ok w in
  let command := command_of r dir (loop_world before) element in
  run_commands r dir (ok ++ element :: later) w
  = {| loop_world := fst (fst (cmd_Output (loop_world before) command));
       loop_ran := loop_ran before ++ [command];
       loop_failed := Some (command, err) |}.
Proof.
  intros Hok Hfail. cbv zeta.
  rewrite run_commands_app by assumption. cbv zeta.
  rewrite run_commands_cons. cbv zeta.
  destruct (cmd_Output _ _) as [[w' out] e]. simpl in Hfail. subst e.
  reflexivity.
Qed.

End Pipeline.

(** ** The claims about [Create] and [Update] *)

Section Claims.

Context {P : Platform}.

(** What [Create] has in hand once the plan is read without an error
    and the source path is a known string. *)
Lemma Create_known_path (r : BuildCommand) (w : World) (resp : Response)
  (pdiags : Diagnostics) (data : BuildCommandModel) (src : string) :
  HasError (Append (Diags resp) pdiags) = false ->
  SourcePath data = StringValue src ->
  Create r w {| Plan_Get := (pdiags, data) |} resp
  = let resp1 := resp_Append resp pdiags in
    let '(exist_, err) := exists_ w src in
    if negb exist_ || is_some err then
      mkOutcome w [] (resp_Append resp1 [Source_Path_not_Valid])
    else
    let '(elements, diags) := ElementsAs (Commands data) in
    if HasError diags then mkOutcome w [] resp1 else
    let lr := run_commands r src elements w in
    match loop_failed lr with
    | Some (command, err) =>
        mkOutcome (loop_world lr) (loop_ran lr)
          (resp_Append resp1 [Could_not_execute command err])
    | None =>
        let w := loop_world lr in
        let nextJSStateFile :=
          path_Join [src; ".serverless"; "serverless-state.json"] in
        let '(exist_, err) := exists_ w nextJSStateFile in
        if negb exist_ || is_some err then
          mkOutcome w (loop_ran lr)
            (resp_Append resp1 [Source_Path_not_Valid])
        else
        match json_Unmarshal (fst (os_ReadFile w nextJSStateFile)) with
        | inr err =>
            mkOutcome w (loop_ran lr)
              (resp_Append resp1 [Unable_to_parse nextJSStateFile err])
        | inl _ =>
            mkOutcome w (loop_ran lr)
              {| State :=
                   Some (set_Data data
                           (ListValue
                              [ObjectKnown
                                 [("path", StringValue "value1");
                                  ("sha256", StringValue "value2");
                                  ("function_name", StringValue "value3")]]));
                 Diags := Append (Diags resp) pdiags |}
        end
    end.
Proof.
  intros Hplan Hsrc. unfold Create. cbn [Plan_Get].
  unfold resp_Append at 1 2. unfold with_Diags at 1 2. cbn [Diags].
  rewrite Hplan, Hsrc. cbn [IsNull IsUnknown orb ValueString]. cbv zeta.
  destruct (exists_ w src) as [exist_ err].
  destruct (negb exist_ || is_some err); [reflexivity|].
  destruct (ElementsAs (Commands data)) as [elements diags].
  destruct (HasError diags); [reflexivity|].
  destruct (loop_failed (run_commands r src elements w)) as [[command e]|];
    [reflexivity|].
  destruct (exists_ _ _) as [exist2 err2].
  destruct (negb exist2 || is_some err2); [reflexivity|].
  destruct (os_ReadFile _ _) as [plan rerr]. cbn [fst].
  destruct (json_Unmarshal plan); reflexivity.
Qed.

(** C3. When the commands [ok] succeed and the next one, [failing],
    does not, [Create] has run the commands of [ok] in list order and
    then [failing], each in the source directory, and none of [later];
    it reports the error diagnostic that names the failed command and
    carries the message of its error, and it sets no state. *)
Theorem Create_stops_at_first_failure
  (r : BuildCommand) (w : World) (resp : Response) (pdiags : Diagnostics)
  (data : BuildCommandModel) (src : string)
  (ok later : list tfString) (failing : tfString) (diags : Diagnostics)
  (err : error)
  (Hplan : HasError (Append (Diags resp) pdiags) = false)
  (Hsrc : SourcePath data = StringValue src)
  (Hexists : exists_ w src = (true, None))
  (Helems : ElementsAs (Commands data) = (ok ++ failing :: later, diags))
  (Hdiags : HasError diags = false)
  (Hok : loop_failed (run_commands r src ok w) = None)
  (Hfail : snd (cmd_Output (loop_world (run_commands r src ok w))
                  (command_of r src (loop_world (run_commands r src ok w))
                     failing))
           = Some err) :
  let before := run_commands r src ok w in
  let command := command_of r src (loop_world before) failing in
  let o := Create r w {| Plan_Get := (pdiags, data) |} resp in
  ran o = loop_ran before ++ [command]
  /\ map Args (ran o) = map (argv_of r) (ok ++ [failing])
  /\ Forall (fun c => Dir c = src) (ran o)
  /\ length (ran o) = S (length ok)
  /\ Diags (response o)
     = Append (Append (Diags resp) pdiags)
         [NewErrorDiagnostic
            ("Could not execute Command: " ++ Cmd_String command)
            (Error err)]
  /\ HasError (Diags (response o)) = true
  /\ State (response o) = State resp.
Proof.
  cbv zeta. rewrite (Create_known_path r w resp pdiags data src Hplan Hsrc).
  cbv zeta. rewrite Hexists. cbn [negb is_some orb]. rewrite Helems, Hdiags.
  rewrite (run_commands_fail r src ok later failing err w Hok Hfail).
  cbn [loop_failed loop_ran loop_world ran response].
  destruct (run_commands_ok r src ok w Hok) as [Hargs Hdir].
  split; [reflexivity|].
  split; [rewrite !map_app, Hargs; cbn [map]; rewrite command_of_Args;
          reflexivity|].
  split; [apply Forall_app; split;
          [assumption|constructor; [reflexivity|constructor]]|].
  split.
  { rewrite length_app, <- (length_map Args), Hargs, length_map. simpl. lia. }
  split; [reflexivity|].
  split; [apply AddError_HasError|reflexivity].
Qed.

(** C4. When the source path is a known string and [exists] does not
    find it (the path is absent, or [os.Stat] fails for another reason),
    [Create] runs no command, leaves the machine as it was, reports the
    diagnostic [Source_Path_not_Valid] and sets no state. *)
Theorem Create_missing_source_path
  (r : BuildCommand) (w : World) (resp : Response) (pdiags : Diagnostics)
  (data : BuildCommandModel) (src : string)
  (Hplan : HasError (Append (Diags resp) pdiags) = false)
  (Hsrc : SourcePath data = StringValue src)
  (Hmissing : exists_ w src <> (true, None)) :
  let o := Create r w {| Plan_Get := (pdiags, data) |} resp in
  ran o = []
  /\ world o = w
  /\ Diags (response o)
     = Append (Append (Diags resp) pdiags) [Source_Path_not_Valid]
  /\ In Source_Path_not_Valid (Diags (response o))
  /\ HasError (Diags (response o)) = true
  /\ State (response o) = State resp.
Proof.
  cbv zeta. rewrite (Create_known_path r w resp pdiags data src Hplan Hsrc).
  cbv zeta. destruct (exists_ w src) as [[|] [e|]];
    try (exfalso; apply Hmissing; reflexivity);
    cbn [negb is_some orb ran world response];
    (repeat split; [apply Append_one_In|apply AddError_HasError]).
Qed.

(** C5, as the code has it.  When every command succeeds and [exists]
    does not find the state file [<source path>/.serverless/serverless-state.json]
    (as [path.Join] builds it), [Create] reports [Source_Path_not_Valid],
    the very diagnostic of a missing source path, and sets no state, so
    no artifact is returned. *)
Theorem Create_missing_state_file
  (r : BuildCommand) (w : World) (resp : Response) (pdiags : Diagnostics)
  (data : BuildCommandModel) (src : string)
  (elements : list tfString) (diags : Diagnostics)
  (Hplan : HasError (Append (Diags resp) pdiags) = false)
  (Hsrc : SourcePath data = StringValue src)
  (Hexists : exists_ w src = (true, None))
  (Helems : ElementsAs (Commands data) = (elements, diags))
  (Hdiags : HasError diags = false)
  (Hok : loop_failed (run_commands r src elements w) = None)
  (Hmissing :
     exists_ (loop_world (run_commands r src elements w))
       (path_Join [src; ".serverless"; "serverless-state.json"])
     <> (true, None)) :
  let o := Create r w {| Plan_Get := (pdiags, data) |} resp in
  map Args (ran o) = map (argv_of r) elements
  /\ Diags (response o)
     = Append (Append (Diags resp) pdiags) [Source_Path_not_Valid]
  /\ In Source_Path_not_Valid (Diags (response o))
  /\ HasError (Diags (response o)) = true
  /\ State (response o) = State resp.
Proof.
  cbv zeta. rewrite (Create_known_path r w resp pdiags data src Hplan Hsrc).
  cbv zeta. rewrite Hexists. cbn [negb is_some orb]. rewrite Helems, Hdiags, Hok.
  destruct (run_commands_ok r src elements w Hok) as [Hargs _].
  destruct (exists_ (loop_world (run_commands r src elements w))
              (path_Join [src; ".serverless"; "serverless-state.json"]))
    as [[|] [e|]];
    try (exfalso; apply Hmissing; reflexivity);
    cbn [negb is_some orb ran world response];
    (repeat split; [assumption|apply Append_one_In|apply AddError_HasError]).
Qed.

(** C1, as the code has it.  When the source directory exists, every
    command succeeds and the state file exists and parses, [Create] sets
    the state to the planned model with [Data] a list of exactly one
    object whose [path] is "value1", [sha256] "value2" and
    [function_name] "value3", whatever the state file holds; it adds no
    diagnostic. *)
Theorem Create_returns_fixed_artifact
  (r : BuildCommand) (w : World) (resp : Response) (pdiags : Diagnostics)
  (data : BuildCommandModel) (src : string)
  (elements : list tfString) (diags : Diagnostics) (nextJSState : Value)
  (Hplan : HasError (Append (Diags resp) pdiags) = false)
  (Hsrc : SourcePath data = StringValue src)
  (Hexists : exists_ w src = (true, None))
  (Helems : ElementsAs (Commands data) = (elements, diags))
  (Hdiags : HasError diags = false)
  (Hok : loop_failed (run_commands r src elements w) = None)
  (Hfile :
     exists_ (loop_world (run_commands r src elements w))
       (path_Join [src; ".serverless"; "serverless-state.json"])
     = (true, None))
  (Hparse :
     json_Unmarshal
       (fst (os_ReadFile (loop_world (run_commands r src elements w))
               (path_Join [src; ".serverless"; "serverless-state.json"])))
     = inl nextJSState) :
  let o := Create r w {| Plan_Get := (pdiags, data) |} resp in
  exists artifact,
    State (response o) = Some (set_Data data (ListValue [artifact]))
    /\ Attribute artifact "path" = Some (StringValue "value1")
    /\ Attribute artifact "sha256" = Some (StringValue "value2")
    /\ Attribute artifact "function_name" = Some (StringValue "value3")
    /\ Diags (response o) = Append (Diags resp) pdiags
    /\ map Args (ran o) = map (argv_of r) elements.
Proof.
  cbv zeta. rewrite (Create_known_path r w resp pdiags data src Hplan Hsrc).
  cbv zeta. rewrite Hexists. cbn [negb is_some orb].
  rewrite Helems, Hdiags, Hok, Hfile. cbn [negb is_some orb].
  rewrite Hparse. cbn [response State Diags ran].
  destruct (run_commands_ok r src elements w Hok) as [Hargs _].
  eexists. repeat split. exact Hargs.
Qed.

(** The two failures of [Create] the theorems above leave out: a source
    path that is null or unknown, and a state file that does not parse. *)
Lemma Create_unknown_source_path
  (r : BuildCommand) (w : World) (resp : Response) (pdiags : Diagnostics)
  (data : BuildCommandModel) :
  HasError (Append (Diags resp) pdiags) = false ->
  IsNull (SourcePath data) || IsUnknown (SourcePath data) = true ->
  Create r w {| Plan_Get := (pdiags, data) |} resp
  = mkOutcome w []
      {| State := State resp;
         Diags := Append (Append (Diags resp) pdiags) [Source_Path_needed] |}.
Proof.
  intros Hplan Hpath. unfold Create. cbn [Plan_Get].
  unfold resp_Append at 1 2. unfold with_Diags at 1 2. cbn [Diags].
  rewrite Hplan, Hpath. reflexivity.
Qed.

Lemma Create_parse_error
  (r : BuildCommand) (w : World) (resp : Response) (pdiags : Diagnostics)
  (data : BuildCommandModel) (src : string)
  (elements : list tfString) (diags : Diagnostics) (err : error) :
  HasError (Append (Diags resp) pdiags) = false ->
  SourcePath data = StringValue src ->
  exists_ w src = (true, None) ->
  ElementsAs (Commands data) = (elements, diags) ->
  HasError diags = false ->
  loop_failed (run_commands r src elements w) = None ->
  let w' := loop_world (run_commands r src elements w) in
  let file := path_Join [src; ".serverless"; "serverless-state.json"] in
  exists_ w' file = (true, None) ->
  json_Unmarshal (fst (os_ReadFile w' file)) = inr err ->
  response (Create r w {| Plan_Get := (pdiags, data) |} resp)
  = {| State := State resp;
       Diags := Append (Append (Diags resp) pdiags)
                  [Unable_to_parse file err] |}.
Proof.
  intros Hplan Hsrc Hexists Helems Hdiags Hok w' file Hfile Hparse.
  subst w' file.
  rewrite (Create_known_path r w resp pdiags data src Hplan Hsrc).
  cbv zeta. rewrite Hexists. cbn [negb is_some orb].
  rewrite Helems, Hdiags, Hok, Hfile. cbn [negb is_some orb].
  rewrite Hparse. reflexivity.
Qed.

(** C6. Whenever the response of [Create] holds an error diagnostic, its
    state is the state the response came in with: a failed call persists
    nothing. *)
Theorem Create_failure_keeps_state
  (r : BuildCommand) (w : World) (req : Request) (resp : Response)
  (Hfailed : HasError (Diags (response (Create r w req resp))) = true) :
  State (response (Create r w req resp)) = State resp.
Proof.
  destruct req as [[pdiags data]].
  destruct (HasError (Append (Diags resp) pdiags)) eqn:Hplan.
  { unfold Create. cbn [Plan_Get]. unfold resp_Append at 1 2.
    unfold with_Diags at 1 2. cbn [Diags]. rewrite Hplan. reflexivity. }
  destruct (SourcePath data) as [| |src] eqn:Hsrc.
  1, 2: unfold Create; cbn [Plan_Get]; unfold resp_Append at 1 2;
        unfold with_Diags at 1 2; cbn [Diags]; rewrite Hplan, Hsrc;
        reflexivity.
  rewrite (Create_known_path r w resp pdiags data src Hplan Hsrc) in *.
  cbv zeta in *.
  destruct (exists_ w src) as [exist_ err].
  destruct (negb exist_ || is_some err); [reflexivity|].
  destruct (ElementsAs (Commands data)) as [elements diags].
  destruct (HasError diags); [reflexivity|].
  destruct (loop_failed (run_commands r src elements w)) as [[command e]|];
    [reflexivity|].
  destruct (exists_ _ _) as [exist2 err2].
  destruct (negb exist2 || is_some err2); [reflexivity|].
  destruct (json_Unmarshal _); [|reflexivity].
  cbn [response Diags] in Hfailed. congruence.
Qed.

(** C2, as the code has it.  [Update] runs no command and leaves the
    machine as it was.  When reading the plan leaves no error diagnostic
    it sets the state to the planned model as it stands, [Data] included;
    otherwise it sets no state. *)
Theorem Update_stores_plan
  (r : BuildCommand) (w : World) (req : Request) (resp : Response) :
  let o := Update r w req resp in
  ran o = []
  /\ world o = w
  /\ Diags (response o) = Append (Diags resp) (fst (Plan_Get req))
  /\ State (response o)
     = if HasError (Append (Diags resp) (fst (Plan_Get req)))
       then State resp
       else Some (snd (Plan_Get req)).
Proof.
  destruct req as [[pdiags data]].
  unfold Update, State_Set, resp_Append, with_Diags.
  cbn [Plan_Get fst snd Diags State].
  destruct (HasError (Append (Diags resp) pdiags));
    cbn [ran world response Diags State]; repeat split.
Qed.

End Claims.

(** ** The callbacks on the small machine *)

Example safeSplit_default_build :
  safeSplit "run-script build" = ["run-script"; "build"].
Proof. reflexivity. Qed.

Example safeSplit_double_space : safeSplit "a  b" = ["a"; ""; "b"].
Proof. reflexivity. Qed.

Lemma Create_stops_at_first_failure_witness :
  let o := Create Machine.npm Machine.disk
             (Machine.plan ["install"; "fail now"; "run-script build"])
             Machine.fresh in
  map Args (ran o) = [["npm"; "install"]; ["npm"; "fail"; "now"]]
  /\ Diags (response o)
     = [NewErrorDiagnostic "Could not execute Command: /usr/bin/npm fail now"
          "exit status 1"]
  /\ State (response o) = None.
Proof.
  pose proof
    (Create_stops_at_first_failure (P := Machine.platform)
       Machine.npm Machine.disk Machine.fresh []
       (snd (Plan_Get
               (Machine.plan ["install"; "fail now"; "run-script build"])))
       "/app" [StringValue "install"] [StringValue "run-script build"]
       (StringValue "fail now") [] Machine.exit1
       eq_refl eq_refl eq_refl eq_refl eq_refl eq_refl eq_refl) as H.
  cbv zeta in H. destruct H as (_ & Hargs & _ & _ & Hdiags & _ & Hstate).
  cbv zeta. split; [exact Hargs|]. split; [exact Hdiags|exact Hstate].
Defined.

Lemma Create_missing_source_path_witness :
  let o := Create Machine.npm Machine.empty_disk (Machine.plan ["install"])
             Machine.fresh in
  ran o = []
  /\ world o = Machine.empty_disk
  /\ Diags (response o) = [Source_Path_not_Valid]
  /\ State (response o) = None.
Proof.
  assert (Hmissing : exists_ Machine.empty_disk "/app" <> (true, None))
    by (vm_compute; discriminate).
  pose proof
    (Create_missing_source_path (P := Machine.platform)
       Machine.npm Machine.empty_disk Machine.fresh []
       (snd (Plan_Get (Machine.plan ["install"]))) "/app"
       eq_refl eq_refl Hmissing) as H.
  cbv zeta in H. destruct H as (Hran & Hworld & Hdiags & _ & _ & Hstate).
  cbv zeta. split; [exact Hran|]. split; [exact Hworld|].
  split; [exact Hdiags|exact Hstate].
Defined.

Lemma Create_missing_state_file_witness :
  let o := Create Machine.npm Machine.disk (Machine.plan ["install"])
             Machine.fresh in
  map Args (ran o) = [["npm"; "install"]]
  /\ Diags (response o) = [Source_Path_not_Valid]
  /\ State (response o) = None.
Proof.
  assert (Hmissing : exists_ Machine.disk Machine.state_file <> (true, None))
    by (vm_compute; discriminate).
  pose proof
    (Create_missing_state_file (P := Machine.platform)
       Machine.npm Machine.disk Machine.fresh []
       (snd (Plan_Get (Machine.plan ["install"]))) "/app"
       [StringValue "install"] []
       eq_refl eq_refl eq_refl eq_refl eq_refl eq_refl Hmissing) as H.
  cbv zeta in H. destruct H as (Hargs & Hdiags & _ & _ & Hstate).
  cbv zeta. split; [exact Hargs|]. split; [exact Hdiags|exact Hstate].
Defined.

(** C5 as stated fails: a run that finds no source directory and a run
    whose commands succeed but leave no state file end with the same
    response, so nothing in it tells the two failures apart. *)
Lemma Create_state_file_error_is_path_error :
  let missing_source :=
    Create Machine.npm Machine.empty_disk (Machine.plan ["install"])
      Machine.fresh in
  let missing_state :=
    Create Machine.npm Machine.disk (Machine.plan ["install"])
      Machine.fresh in
  ran missing_source = []
  /\ map Args (ran missing_state) = [["npm"; "install"]]
  /\ os_Stat (world missing_state) Machine.state_file = Some Machine.ENOENT
  /\ response missing_state = response missing_source.
Proof. vm_compute. repeat split. Qed.

Lemma Create_returns_fixed_artifact_witness :
  let o := Create Machine.npm Machine.disk
             (Machine.plan ["install --cache .npm"; "run-script build"])
             Machine.fresh in
  exists artifact,
    State (response o)
    = Some {| SourcePath := StringValue "/app";
              Commands := ListValue [StringValue "install --cache .npm";
                                     StringValue "run-script build"];
              Data := ListValue [artifact] |}
    /\ Attribute artifact "path" = Some (StringValue "value1")
    /\ Attribute artifact "sha256" = Some (StringValue "value2")
    /\ Attribute artifact "function_name" = Some (StringValue "value3").
Proof.
  pose proof
    (Create_returns_fixed_artifact (P := Machine.platform)
       Machine.npm Machine.disk Machine.fresh []
       (snd (Plan_Get
               (Machine.plan ["install --cache .npm"; "run-script build"])))
       "/app"
       [StringValue "install --cache .npm"; StringValue "run-script build"]
       [] Machine.state_doc
       eq_refl eq_refl eq_refl eq_refl eq_refl eq_refl eq_refl eq_refl) as H.
  cbv zeta in H. destruct H as (artifact & Hstate & Hp & Hs & Hf & _).
  cbv zeta. exists artifact.
  split; [exact Hstate|]. split; [exact Hp|]. split; [exact Hs|exact Hf].
Defined.

(** C1 as stated fails: the commands succeed, the state file holds the
    artifact entry with path a.zip, sha abc and fn f1 and parses, and the
    state [Create] sets does not hold that artifact. *)
Lemma Create_ignores_state_file :
  let req := Machine.plan ["install --cache .npm"; "run-script build"] in
  let o := Create Machine.npm Machine.disk req Machine.fresh in
  Diags (response o) = []
  /\ exists_ (world o) Machine.state_file = (true, None)
  /\ os_ReadFile (world o) Machine.state_file = (Machine.state_text, None)
  /\ Machine.unmarshal Machine.state_text = inl Machine.state_doc
  /\ State (response o)
     <> Some (set_Data (snd (Plan_Get req))
                (ListValue [Machine.described_artifact])).
Proof.
  vm_compute. repeat split. discriminate.
Qed.

Lemma Create_failure_keeps_state_witness :
  State (response (Create Machine.npm Machine.disk
                     (Machine.plan ["install"; "fail"]) Machine.fresh))
  = None.
Proof.
  apply (Create_failure_keeps_state (P := Machine.platform)
           Machine.npm Machine.disk (Machine.plan ["install"; "fail"])
           Machine.fresh).
  vm_compute. reflexivity.
Defined.

(** C2 as stated fails: for a plan whose one command is [run-script build],
    [Update] runs nothing and stores the plan with its unknown [Data],
    where a run of the pipeline, as [Create] performs it, runs the command
    and stores the artifact list. *)
Lemma Update_does_not_run_the_pipeline :
  let req := Machine.plan ["run-script build"] in
  let updated := Update Machine.npm Machine.disk req Machine.fresh in
  let created := Create Machine.npm Machine.disk req Machine.fresh in
  map Args (ran created) = [["npm"; "run-script"; "build"]]
  /\ map Args (ran updated) <> map (argv_of Machine.npm) [StringValue "run-script build"]
  /\ State (response updated) = Some (snd (Plan_Get req))
  /\ Data (snd (Plan_Get req)) = ListUnknown
  /\ State (response updated) <> State (response created).
Proof.
  vm_compute. repeat split; discriminate.
Qed.

(** * More of the tokenizer *)

Lemma length_Split (s : string) (sep : ascii) :
  length (strings.Split s sep) = S (count_byte sep s).
Proof.
  induction s as [|a s IH]; simpl; [reflexivity|].
  destruct (Ascii.eqb a sep); simpl.
  - rewrite IH. reflexivity.
  - pose proof (Split_not_nil s sep) as Hne.
    destruct (strings.Split s sep) as [|w ws]; [contradiction|].
    exact IH.
Qed.

(** The tokens already emitted play no part in what a word does. *)
Lemma step_result_prefix (st : SplitState) (i : string) :
  split_step st i
  = let st' :=
      split_step {| result := []; inquote := inquote st; block := block st |}
        i in
    {| result := result st ++ result st';
       inquote := inquote st';
       block := block st' |}.
Proof.
  unfold split_step. cbn [result inquote block].
  destruct (inquote st =? "")%string.
  - destruct (strings.HasPrefix i squote || strings.HasPrefix i dquote);
      cbn [result inquote block]; rewrite ?app_nil_r; reflexivity.
  - destruct (negb (strings.HasSuffix i (inquote st)));
      cbn [result inquote block]; rewrite ?app_nil_r; reflexivity.
Qed.

Lemma loop_result_prefix (ws : list string) : forall st,
  split_loop st ws
  = let st' :=
      split_loop {| result := []; inquote := inquote st; block := block st |}
        ws in
    {| result := result st ++ result st';
       inquote := inquote st';
       block := block st' |}.
Proof.
  induction ws as [|w ws IH]; intros st.
  - simpl. rewrite app_nil_r. destruct st; reflexivity.
  - change (split_loop st (w :: ws)) with (split_loop (split_step st w) ws).
    change (split_loop ?x (w :: ws)) with (split_loop (split_step x w) ws).
    rewrite IH, step_result_prefix. cbv zeta. cbn [result inquote block].
    rewrite (IH (split_step _ w)). cbv zeta. cbn [result inquote block].
    rewrite app_assoc. reflexivity.
Qed.

Lemma step_length (st : SplitState) (i : string) :
  length (result (split_step st i)) <= S (length (result st)).
Proof.
  unfold split_step.
  destruct (inquote st =? "")%string.
  - destruct (strings.HasPrefix i squote || strings.HasPrefix i dquote);
      cbn [result]; rewrite ?length_app; simpl; lia.
  - destruct (negb (strings.HasSuffix i (inquote st)));
      cbn [result]; rewrite ?length_app; simpl; lia.
Qed.

Lemma loop_length (ws : list string) : forall st,
  length (result (split_loop st ws)) <= length (result st) + length ws.
Proof.
  induction ws as [|w ws IH]; intros st; simpl; [lia|].
  change (fold_left split_step ws ?x) with (split_loop x ws).
  pose proof (IH (split_step st w)). pose proof (step_length st w). lia.
Qed.

Lemma step_inv (st : SplitState) (i : string) :
  split_inv st -> split_inv (split_step st i).
Proof.
  intros Hinv. unfold split_step.
  destruct (String.eqb_spec (inquote st) "") as [Hout|Hin].
  - destruct (strings.HasPrefix i squote || strings.HasPrefix i dquote) eqn:Hi.
    + destruct (starts_quote_inv i Hi) as (q & body & -> & Hq).
      simpl byte0. rewrite (quote_byte q Hq).
      destruct Hq as [Hq|Hq]; [right; left|right; right]; exact Hq.
    + left. cbn [inquote block]. split; [assumption|].
      destruct Hinv as [[_ Hb]|[H|H]]; [assumption| |];
        rewrite H in Hout; discriminate.
  - destruct (negb (strings.HasSuffix i (inquote st))).
    + destruct Hinv as [[H _]|[H|H]]; [contradiction| |];
        [right; left|right; right]; exact H.
    + left. split; reflexivity.
Qed.

Lemma loop_inv (ws : list string) : forall st,
  split_inv st -> split_inv (split_loop st ws).
Proof.
  induction ws as [|w ws IH]; intros st Hinv; [assumption|].
  apply (IH (split_step st w)), step_inv, Hinv.
Qed.

Lemma safeSplit_plain (s : string) :
  Forall (fun w => starts_quote w = false) (strings.Split s space) ->
  safeSplit s = strings.Split s space.
Proof.
  intros Hplain. unfold safeSplit, split_run.
  rewrite loop_plain by (assumption || reflexivity). reflexivity.
Qed.

(** X1. When no word of the input starts with a quote byte, the tokens are
    exactly the pieces of the input between its spaces, empty pieces
    included, so there is one token more than there are spaces. *)
Theorem safeSplit_unquoted_is_Split (s : string)
  (Hplain : Forall (fun w => starts_quote w = false) (strings.Split s space)) :
  safeSplit s = strings.Split s space
  /\ length (safeSplit s) = S (count_byte space s).
Proof.
  assert (Hs : safeSplit s = strings.Split s space).
  { unfold safeSplit, split_run.
    rewrite loop_plain by (assumption || reflexivity). reflexivity. }
  split; [exact Hs|]. rewrite Hs. apply length_Split.
Qed.

Lemma safeSplit_unquoted_is_Split_witness :
  safeSplit " a  b " = [""; "a"; ""; "b"; ""]
  /\ length (safeSplit " a  b ") = 5.
Proof.
  apply (safeSplit_unquoted_is_Split " a  b ").
  vm_compute. repeat constructor.
Defined.

(** X2. An input that leaves the loop outside quote mode can be followed
    by a space and a second input: the tokens are those of the first
    followed by those of the second, and the loop ends in the mode in
    which the second alone ends. *)
Theorem safeSplit_app (s1 s2 : string)
  (Hclosed : inquote (split_run s1) = "") :
  safeSplit (s1 ++ String space s2) = safeSplit s1 ++ safeSplit s2
  /\ inquote (split_run (s1 ++ String space s2)) = inquote (split_run s2)
  /\ block (split_run (s1 ++ String space s2)) = block (split_run s2).
Proof.
  pose proof (loop_inv (strings.Split s1 space) split_init
                (or_introl (conj eq_refl eq_refl))) as Hinv.
  fold (split_run s1) in Hinv.
  assert (Hblock : block (split_run s1) = "").
  { destruct Hinv as [[_ Hb]|[H|H]]; [assumption| |];
      rewrite H in Hclosed; discriminate. }
  unfold safeSplit. unfold split_run at 1 4 6.
  rewrite Split_app, loop_app. fold (split_run s1).
  rewrite loop_result_prefix. cbv zeta. cbn [result inquote block].
  rewrite Hclosed, Hblock. fold split_init. fold (split_run s2).
  repeat split.
Qed.

Lemma safeSplit_app_witness :
  safeSplit "run 'a b' c 'd e'" = ["run"; "a b"] ++ ["c"; "d e"].
Proof.
  apply (safeSplit_app "run 'a b'" "c 'd e'"). reflexivity.
Defined.

(** X3. There are never more tokens than words: at most one more than the
    input has spaces. *)
Theorem safeSplit_length_le (s : string) :
  length (safeSplit s) <= S (count_byte space s).
Proof.
  unfold safeSplit, split_run. rewrite <- (length_Split s space).
  apply (loop_length (strings.Split s space) split_init).
Qed.

(** X4. However the input ends, the loop is outside quote mode with an
    empty buffer, or in quote mode with [inquote] one of the two quote
    bytes. *)
Theorem split_run_inv (s : string) : split_inv (split_run s).
Proof.
  apply loop_inv. left. split; reflexivity.
Qed.

(** X5. When an input ends in quote mode, one more word that is the open
    quote byte alone closes the span: the buffer that was dropped becomes
    the last token, with the space the loop put after its last word. *)
Theorem safeSplit_close_with_quote (s : string)
  (Hopen : inquote (split_run s) <> "") :
  safeSplit (s ++ String space (inquote (split_run s)))
  = safeSplit s ++ [block (split_run s)]
  /\ inquote (split_run (s ++ String space (inquote (split_run s)))) = "".
Proof.
  assert (Hq : exists q, inquote (split_run s) = String q EmptyString
                         /\ is_quote q).
  { destruct (loop_inv (strings.Split s space) split_init
                (or_introl (conj eq_refl eq_refl))) as [[H _]|[H|H]];
      fold (split_run s) in H; [contradiction| |].
    - exists "'"%char. split; [exact H|left; reflexivity].
    - exists (ascii_of_nat 34). split; [exact H|right; reflexivity]. }
  destruct Hq as (q & Hq & Hquote).
  unfold safeSplit. unfold split_run at 1 5.
  rewrite Split_app, loop_app. fold (split_run s).
  rewrite Hq.
  rewrite (Split_no_sep (String q EmptyString) space)
    by (simpl; rewrite (quote_not_space q Hquote); reflexivity).
  change (split_loop ?st [?w]) with (split_step st w).
  rewrite step_close.
  - cbn [result inquote]. rewrite Hq.
    change (String q EmptyString) with ("" ++ String q EmptyString)%string at 1.
    rewrite TrimSuffix_closing, append_nil_r. split; reflexivity.
  - assumption.
  - rewrite Hq.
    change (String q EmptyString) with ("" ++ String q EmptyString)%string at 1.
    apply HasSuffix_closing.
Qed.

Lemma safeSplit_close_with_quote_witness :
  safeSplit "run 'a b '" = ["run"; "a b "].
Proof.
  apply (safeSplit_close_with_quote "run 'a b"). vm_compute. discriminate.
Defined.

(** * More of [Create] *)

Lemma Append_incl (new : list Diagnostic) : forall diags : Diagnostics,
  incl diags (Append diags new).
Proof.
  unfold Append. induction new as [|d new IH]; intros diags x Hx; [exact Hx|].
  simpl. apply IH. destruct (Contains diags d); [exact Hx|].
  apply in_or_app. left. exact Hx.
Qed.

Lemma concat_space_Join (ws : list string) :
  ws <> [] ->
  String.concat "" (map (fun a => " " ++ a)%string ws)
  = (" " ++ strings.Join ws " ")%string.
Proof.
  induction ws as [|w ws IH]; intros Hne; [contradiction|].
  destruct ws as [|w' ws]; [reflexivity|].
  change (String.concat "" (map (fun a => " " ++ a)%string (w :: w' :: ws)))
    with ((" " ++ w)
          ++ "" ++ String.concat "" (map (fun a => " " ++ a)%string (w' :: ws)))%string.
  rewrite IH by discriminate. rewrite Join_cons.
  simpl. reflexivity.
Qed.

Section MoreOfCreate.

Context {P : Platform}.


(** Whatever happens in the loop, the commands run are the first few of
    the list, in order. *)
Lemma run_commands_prefix r dir (elements : list tfString) : forall w,
  exists n,
    n <= length elements
    /\ map Args (loop_ran (run_commands r dir elements w))
       = map (argv_of r) (firstn n elements)
    /\ Forall (fun c => Dir c = dir) (loop_ran (run_commands r dir elements w)).
Proof.
  induction elements as [|element rest IH]; intros w.
  - exists 0. split; [simpl; lia|]. split; [reflexivity|constructor].
  - rewrite run_commands_cons. cbv zeta.
    destruct (cmd_Output w (command_of r dir w element)) as [[w' out] [e|]].
    + exists 1. cbn [loop_ran map firstn length].
      rewrite command_of_Args. split; [lia|]. split; [reflexivity|].
      constructor; [reflexivity|constructor].
    + destruct (IH w') as (n & Hn & Hargs & Hdir).
      exists (S n). cbn [loop_ran map firstn length].
      rewrite command_of_Args, Hargs. split; [lia|]. split; [reflexivity|].
      constructor; [reflexivity|assumption].
Qed.

Lemma Create_plan_error_eq (r : BuildCommand) (w : World) (resp : Response)
  (pdiags : Diagnostics) (data : BuildCommandModel) :
  HasError (Append (Diags resp) pdiags) = true ->
  Create r w {| Plan_Get := (pdiags, data) |} resp
  = mkOutcome w [] (resp_Append resp pdiags).
Proof.
  intros Hplan. unfold Create. cbn [Plan_Get].
  change (Diags (resp_Append resp pdiags)) with (Append (Diags resp) pdiags).
  rewrite Hplan. reflexivity.
Qed.

(** The ways a call of [Create] can end. *)
Lemma Create_shape (r : BuildCommand) (w : World) (resp : Response)
  (pdiags : Diagnostics) (data : BuildCommandModel) :
  let o := Create r w {| Plan_Get := (pdiags, data) |} resp in
  let D := Append (Diags resp) pdiags in
  let lr := run_commands r (ValueString (SourcePath data))
              (fst (ElementsAs (Commands data))) w in
  (ran o = [] /\ world o = w /\ State (response o) = State resp
   /\ (Diags (response o) = D
       \/ exists summary detail,
            Diags (response o) = AddError D summary detail))
  \/ (ran o = loop_ran lr /\ world o = loop_world lr
      /\ ((State (response o) = State resp
           /\ exists summary detail,
                Diags (response o) = AddError D summary detail)
          \/ (loop_failed lr = None /\ HasError D = false
              /\ State (response o) = Some (set_Data data stored)
              /\ Diags (response o) = D))).
Proof.
  cbv zeta.
  destruct (HasError (Append (Diags resp) pdiags)) eqn:Hplan.
  { left. rewrite (Create_plan_error_eq r w resp pdiags data Hplan).
    repeat split. left. reflexivity. }
  destruct (SourcePath data) as [| |src] eqn:Hsrc.
  1, 2: left;
        rewrite (Create_unknown_source_path r w resp pdiags data Hplan)
          by (rewrite Hsrc; reflexivity);
        repeat split; right; eexists; eexists; reflexivity.
  rewrite (Create_known_path r w resp pdiags data src Hplan Hsrc).
  cbv zeta. cbn [ValueString].
  destruct (exists_ w src) as [exist_ err].
  destruct (negb exist_ || is_some err).
  { left. repeat split. right. eexists; eexists; reflexivity. }
  destruct (ElementsAs (Commands data)) as [elements diags]. cbn [fst].
  destruct (HasError diags).
  { left. repeat split. left. reflexivity. }
  right.
  destruct (loop_failed (run_commands r src elements w)) as [[command e]|]
    eqn:Hfailed.
  { repeat split. left. split; [reflexivity|].
    eexists; eexists; reflexivity. }
  destruct (exists_ (loop_world (run_commands r src elements w))
              (path_Join [src; ".serverless"; "serverless-state.json"]))
    as [exist2 err2].
  destruct (negb exist2 || is_some err2).
  { repeat split. left. split; [reflexivity|].
    eexists; eexists; reflexivity. }
  destruct (json_Unmarshal _) as [v|e].
  - repeat split. right. repeat split.
  - repeat split. left. split; [reflexivity|].
    eexists; eexists; reflexivity.
Qed.


(** X7. A call of [Create] ends in one of two ways.  Either it leaves the
    state of the response alone and adds, after the diagnostics of reading
    the plan, at most one error diagnostic of its own; or it sets the
    state to the planned model with the stored artifact list, adds no
    diagnostic of its own, there is no error among the diagnostics, and
    every command of the list has run.  The diagnostics the response came
    in with are all kept. *)
Theorem Create_state_or_one_error
  (r : BuildCommand) (w : World) (req : Request) (resp : Response) :
  let data := snd (Plan_Get req) in
  let D := Append (Diags resp) (fst (Plan_Get req)) in
  let o := Create r w req resp in
  ((State (response o) = State resp
    /\ (Diags (response o) = D
        \/ exists summary detail,
             Diags (response o) = AddError D summary detail))
   \/ (State (response o)
       = Some (set_Data data
                 (ListValue
                    [ObjectKnown [("path", StringValue "value1");
                                  ("sha256", StringValue "value2");
                                  ("function_name", StringValue "value3")]]))
       /\ Diags (response o) = D
       /\ HasError (Diags (response o)) = false
       /\ map Args (ran o)
          = map (argv_of r) (fst (ElementsAs (Commands data)))))
  /\ incl (Diags resp) (Diags (response o)).
Proof.
  destruct req as [[pdiags data]]. cbn [Plan_Get fst snd]. cbv zeta.
  assert (Hkeep : forall diags : Diagnostics,
             diags = Append (Diags resp) pdiags
             \/ (exists summary detail,
                   diags = AddError (Append (Diags resp) pdiags) summary detail)
             -> incl (Diags resp) diags).
  { intros diags [->|(summary & detail & ->)].
    - apply Append_incl.
    - unfold AddError. intros x Hx. apply Append_incl, Append_incl, Hx. }
  destruct (Create_shape r w resp pdiags data)
    as [(_ & _ & Hstate & Hdiags)
       |(Hran & _ & [(Hstate & Hdiags)|(Hok & Hplan & Hstate & Hdiags)])].
  - split; [left; split; assumption|apply Hkeep; assumption].
  - split; [left; split; [assumption|right; assumption]|].
    apply Hkeep. right. assumption.
  - split; [|apply Hkeep; left; assumption].
    right. fold stored. split; [assumption|]. split; [assumption|].
    split; [rewrite Hdiags; assumption|].
    rewrite Hran. apply run_commands_ok. exact Hok.
Qed.

End MoreOfCreate.

Section EarlyExits.

Context {P : Platform}.

(** X8. When the source path of the plan is null or unknown, [Create]
    reports ["Source Path needed"], runs no command, leaves the machine
    as it was and sets no state. *)
Theorem Create_source_path_needed
  (r : BuildCommand) (w : World) (resp : Response) (pdiags : Diagnostics)
  (data : BuildCommandModel)
  (Hplan : HasError (Append (Diags resp) pdiags) = false)
  (Hpath : IsNull (SourcePath data) || IsUnknown (SourcePath data) = true) :
  let o := Create r w {| Plan_Get := (pdiags, data) |} resp in
  ran o = []
  /\ world o = w
  /\ Diags (response o)
     = Append (Append (Diags resp) pdiags)
         [NewErrorDiagnostic "Source Path needed"
            "Source Path needed in order to create Functions"]
  /\ HasError (Diags (response o)) = true
  /\ State (response o) = State resp.
Proof.
  cbv zeta.
  rewrite (Create_unknown_source_path r w resp pdiags data Hplan Hpath).
  cbn [ran world response Diags State].
  repeat split. apply AddError_HasError.
Qed.

(** X9. When every command has succeeded and the state file exists but
    [json.Unmarshal] rejects its content, [Create] has run all the
    commands, reports ["Unable to parse NextJS State"] with the path of
    the file and the message of the parse error, and sets no state. *)
Theorem Create_state_parse_error
  (r : BuildCommand) (w : World) (resp : Response) (pdiags : Diagnostics)
  (data : BuildCommandModel) (src : string)
  (elements : list tfString) (diags : Diagnostics) (err : error)
  (Hplan : HasError (Append (Diags resp) pdiags) = false)
  (Hsrc : SourcePath data = StringValue src)
  (Hexists : exists_ w src = (true, None))
  (Helems : ElementsAs (Commands data) = (elements, diags))
  (Hdiags : HasError diags = false)
  (Hok : loop_failed (run_commands r src elements w) = None)
  (Hfile :
     exists_ (loop_world (run_commands r src elements w))
       (path_Join [src; ".serverless"; "serverless-state.json"])
     = (true, None))
  (Hparse :
     json_Unmarshal
       (fst (os_ReadFile (loop_world (run_commands r src elements w))
               (path_Join [src; ".serverless"; "serverless-state.json"])))
     = inr err) :
  let o := Create r w {| Plan_Get := (pdiags, data) |} resp in
  let file := path_Join [src; ".serverless"; "serverless-state.json"] in
  map Args (ran o) = map (argv_of r) elements
  /\ world o = loop_world (run_commands r src elements w)
  /\ Diags (response o)
     = Append (Append (Diags resp) pdiags)
         [NewErrorDiagnostic "Unable to parse NextJS State"
            ("The File: " ++ file
             ++ " could not be read and the following error was produced: "
             ++ Error err ++ ".")]
  /\ HasError (Diags (response o)) = true
  /\ State (response o) = State resp.
Proof.
  cbv zeta. rewrite (Create_known_path r w resp pdiags data src Hplan Hsrc).
  cbv zeta. rewrite Hexists. cbn [negb is_some orb].
  rewrite Helems, Hdiags, Hok, Hfile. cbn [negb is_some orb].
  rewrite Hparse. cbn [ran world response Diags State].
  destruct (run_commands_ok r src elements w Hok) as [Hargs _].
  split; [exact Hargs|]. repeat split. apply AddError_HasError.
Qed.

(** X10. When the diagnostics hold an error once the plan is read (the
    response came in with one, or reading the plan produced one), [Create]
    checks nothing and runs nothing: the machine and the state are as they
    were and no diagnostic of [Create] is added. *)
Theorem Create_plan_error
  (r : BuildCommand) (w : World) (resp : Response) (pdiags : Diagnostics)
  (data : BuildCommandModel)
  (Hplan : HasError (Append (Diags resp) pdiags) = true) :
  let o := Create r w {| Plan_Get := (pdiags, data) |} resp in
  ran o = []
  /\ world o = w
  /\ Diags (response o) = Append (Diags resp) pdiags
  /\ State (response o) = State resp.
Proof.
  cbv zeta. rewrite (Create_plan_error_eq r w resp pdiags data Hplan).
  repeat split.
Qed.

(** X11. When the source directory exists but the command list cannot be
    read as a list of strings ([ElementsAs] reports an error), [Create]
    returns without a word: it runs no command, sets no state, and adds no
    diagnostic, so the response holds no error. *)
Theorem Create_commands_unreadable
  (r : BuildCommand) (w : World) (resp : Response) (pdiags : Diagnostics)
  (data : BuildCommandModel) (src : string)
  (elements : list tfString) (diags : Diagnostics)
  (Hplan : HasError (Append (Diags resp) pdiags) = false)
  (Hsrc : SourcePath data = StringValue src)
  (Hexists : exists_ w src = (true, None))
  (Helems : ElementsAs (Commands data) = (elements, diags))
  (Hdiags : HasError diags = true) :
  let o := Create r w {| Plan_Get := (pdiags, data) |} resp in
  ran o = []
  /\ world o = w
  /\ Diags (response o) = Append (Diags resp) pdiags
  /\ HasError (Diags (response o)) = false
  /\ State (response o) = State resp.
Proof.
  cbv zeta. rewrite (Create_known_path r w resp pdiags data src Hplan Hsrc).
  cbv zeta. rewrite Hexists. cbn [negb is_some orb].
  rewrite Helems, Hdiags. cbn [ran world response].
  repeat split. exact Hplan.
Qed.

(** X12. The text [Create] puts in the summary of a failed command, when
    the executable was found: the resolved path of the executable and the
    tokens, each after one space.  For a command in which no word starts
    with a quote byte that is the path, a space, and the command as it was
    written. *)
Theorem Cmd_String_of_command
  (r : BuildCommand) (dir : string) (w : World) (s : string)
  (Hfound : Err (command_of r dir w (StringValue s)) = None) :
  let command := command_of r dir w (StringValue s) in
  Cmd_String command
  = (Path command
     ++ String.concat "" (map (fun a => " " ++ a) (safeSplit s)))%string
  /\ (Forall (fun w => starts_quote w = false) (strings.Split s space) ->
      Cmd_String command = (Path command ++ " " ++ s)%string).
Proof.
  cbv zeta.
  assert (Hstr : Cmd_String (command_of r dir w (StringValue s))
                 = (Path (command_of r dir w (StringValue s))
                    ++ String.concat ""
                         (map (fun a => " " ++ a) (safeSplit s)))%string).
  { unfold Cmd_String. rewrite Hfound, command_of_Args. reflexivity. }
  split; [exact Hstr|]. intros Hplain. rewrite Hstr.
  rewrite (safeSplit_plain s Hplain), concat_space_Join
    by apply Split_not_nil.
  change " " with (String space EmptyString) at 1.
  change (strings.Join (strings.Split s space) " ")
    with (strings.Join (strings.Split s space) (String space EmptyString)).
  rewrite Join_Split. reflexivity.
Qed.

End EarlyExits.

(** * The other callbacks and the provider *)

Lemma Args_heads (r : BuildCommand) (cmds : list Cmd) :
  forall elements : list tfString,
  map Args cmds = map (argv_of r) elements ->
  Forall (fun c => hd_error (Args c) = Some (executable r)) cmds.
Proof.
  induction cmds as [|c cmds IH]; intros elements Hmap; [constructor|].
  destruct elements as [|element rest]; [discriminate|].
  simpl in Hmap. inversion Hmap as [[Hc Hrest]].
  constructor; [rewrite Hc; reflexivity|]. apply (IH rest). exact Hrest.
Qed.

Section Callbacks.

Context {P : Platform}.

Lemma Create_ran_heads (r : BuildCommand) (w : World) (req : Request)
  (resp : Response) :
  Forall (fun c => hd_error (Args c) = Some (executable r))
    (ran (Create r w req resp)).
Proof.
  destruct req as [[pdiags data]].
  destruct (Create_shape r w resp pdiags data)
    as [(Hran & _)|(Hran & _)]; rewrite Hran; [constructor|].
  destruct (run_commands_prefix r (ValueString (SourcePath data))
              (fst (ElementsAs (Commands data))) w) as (n & _ & Hargs & _).
  apply (Args_heads r _ _ Hargs).
Qed.


(** X14. [Delete] removes nothing: it runs no command, leaves every file
    of the machine in place and does not touch the state of the response;
    all it adds are the diagnostics of reading the prior state. *)
Theorem Delete_removes_nothing
  (r : BuildCommand) (w : World) (req : StateRequest) (resp : Response) :
  let o := Delete r w req resp in
  ran o = []
  /\ world o = w
  /\ State (response o) = State resp
  /\ Diags (response o) = Append (Diags resp) (fst (State_Get req)).
Proof.
  destruct req as [[gdiags data]]. cbv zeta. unfold Delete.
  cbn [State_Get fst].
  destruct (HasError (Diags (resp_Append resp gdiags))); repeat split.
Qed.


(** X16. From the provider to the processes.  When the provider's
    [Configure] meets no error and its probe succeeds, a resource
    configured with the data it hands on has the probed executable as its
    [executable], its [Configure] adds no diagnostic, and every process
    that [Create] then starts is started with that executable. *)
Theorem probed_executable_runs_the_commands
  (w : World) (req : ConfigRequest) (resp : ConfigureResponse)
  (r : BuildCommand) (diags : Diagnostics)
  (Hclean : HasError (Append (cfg_Diags resp) (fst (Config_Get req))) = false)
  (Hprobe :
     snd (cmd_Output w
            (exec_Command w (configured_executable (snd (Config_Get req)))
               ["-v"]))
     = None) :
  let exe := configured_executable (snd (Config_Get req)) in
  let o := NextJSProvider_Configure w req resp in
  let configured :=
    BuildCommand_Configure r (ResourceData (cfg_response o)) diags in
  ResourceData (cfg_response o) = any_string exe
  /\ executable (fst configured) = exe
  /\ snd configured = diags
  /\ forall (w2 : World) (req2 : Request) (resp2 : Response),
       Forall (fun c => hd_error (Args c) = Some exe)
         (ran (Create (fst configured) w2 req2 resp2)).
Proof.
  cbv zeta.
  assert (Hdata : ResourceData
                    (cfg_response (NextJSProvider_Configure w req resp))
                  = any_string (configured_executable (snd (Config_Get req)))).
  { destruct req as [[gdiags data]]. cbn [Config_Get fst snd] in *.
    unfold NextJSProvider_Configure. cbn [Config_Get cfg_Diags ResourceData].
    rewrite Hclean.
    unfold configured_executable, detectExecutableVersion in *.
    destruct (IsNull (Executable data));
      cbn [ValueString Executable] in *;
      destruct (cmd_Output w _) as [[w' out] [e|]];
      cbn [snd] in Hprobe; try discriminate; reflexivity. }
  rewrite Hdata. cbn [BuildCommand_Configure fst snd executable].
  repeat split. intros w2 req2 resp2.
  apply (Create_ran_heads
           {| executable := configured_executable (snd (Config_Get req)) |}).
Qed.

(** X17. A resource handed no provider data keeps its executable, and so
    does one handed a value that is not a string, which also gets the
    error ["Unexpected Resource Configure Type"] naming the type; in both
    cases every process [Create] starts is started with the executable the
    resource had, the empty name for a resource fresh from
    [NewBuildCommand]. *)
Theorem unconfigured_resource_keeps_executable
  (r : BuildCommand) (ProviderData : any) (diags : Diagnostics)
  (Hnot_string : forall s, ProviderData <> any_string s) :
  let configured := BuildCommand_Configure r ProviderData diags in
  fst configured = r
  /\ (ProviderData = any_nil -> snd configured = diags)
  /\ (forall typeName, ProviderData = any_other typeName ->
        snd configured
        = AddError diags "Unexpected Resource Configure Type"
            ("Expected string, got: " ++ typeName
             ++ ". Please report this issue to the provider developers.")
        /\ HasError (snd configured) = true)
  /\ forall (w : World) (req : Request) (resp : Response),
       Forall (fun c => hd_error (Args c) = Some (executable r))
         (ran (Create (fst configured) w req resp)).
Proof.
  cbv zeta. destruct ProviderData as [|s|T].
  - cbn [BuildCommand_Configure fst snd].
    split; [reflexivity|]. split; [reflexivity|].
    split; [intros typeName H; discriminate|].
    intros w req resp. apply Create_ran_heads.
  - exfalso. apply (Hnot_string s). reflexivity.
  - cbn [BuildCommand_Configure fst snd].
    split; [reflexivity|]. split; [intros H; discriminate|].
    split.
    + intros typeName H. inversion H. subst.
      split; [reflexivity|apply AddError_HasError].
    + intros w req resp. apply Create_ran_heads.
Qed.

End Callbacks.

(** ** These properties on the small machine *)

Lemma Create_source_path_needed_witness :
  let o := Create Machine.npm Machine.disk
             {| Plan_Get :=
                  ([], {| SourcePath := StringUnknown;
                          Commands := ListValue [StringValue "install"];
                          Data := ListUnknown |}) |}
             Machine.fresh in
  ran o = []
  /\ Diags (response o)
     = [NewErrorDiagnostic "Source Path needed"
          "Source Path needed in order to create Functions"]
  /\ State (response o) = None.
Proof.
  pose proof
    (Create_source_path_needed (P := Machine.platform)
       Machine.npm Machine.disk Machine.fresh []
       {| SourcePath := StringUnknown;
          Commands := ListValue [StringValue "install"];
          Data := ListUnknown |}
       eq_refl eq_refl) as H.
  cbv zeta in H. destruct H as (Hran & _ & Hdiags & _ & Hstate).
  cbv zeta. split; [exact Hran|]. split; [exact Hdiags|exact Hstate].
Defined.

Lemma Create_state_parse_error_witness :
  let o := Create (P := Machine.platform) Machine.npm
             ((Machine.state_file, "not json") :: Machine.disk)
             (Machine.plan ["install"]) Machine.fresh in
  map Args (ran o) = [["npm"; "install"]]
  /\ Diags (response o)
     = [NewErrorDiagnostic "Unable to parse NextJS State"
          "The File: /app/.serverless/serverless-state.json could not be read and the following error was produced: invalid character."]
  /\ State (response o) = None.
Proof.
  pose proof
    (Create_state_parse_error (P := Machine.platform)
       Machine.npm ((Machine.state_file, "not json") :: Machine.disk)
       Machine.fresh []
       (snd (Plan_Get (Machine.plan ["install"]))) "/app"
       [StringValue "install"] []
       {| Error := "invalid character"; IsNotExist := false |}
       eq_refl eq_refl eq_refl eq_refl eq_refl eq_refl eq_refl eq_refl) as H.
  cbv zeta in H. destruct H as (Hargs & _ & Hdiags & _ & Hstate).
  cbv zeta. split; [exact Hargs|]. split; [exact Hdiags|exact Hstate].
Defined.

Lemma Create_plan_error_witness :
  let o := Create Machine.npm Machine.disk
             {| Plan_Get :=
                  ([NewErrorDiagnostic "Value Conversion Error" "bad plan"],
                   {| SourcePath := StringValue "/app";
                      Commands := ListValue [StringValue "install"];
                      Data := ListUnknown |}) |}
             Machine.fresh in
  ran o = []
  /\ Diags (response o)
     = [NewErrorDiagnostic "Value Conversion Error" "bad plan"]
  /\ State (response o) = None.
Proof.
  pose proof
    (Create_plan_error (P := Machine.platform)
       Machine.npm Machine.disk Machine.fresh
       [NewErrorDiagnostic "Value Conversion Error" "bad plan"]
       {| SourcePath := StringValue "/app";
          Commands := ListValue [StringValue "install"];
          Data := ListUnknown |}
       eq_refl) as H.
  cbv zeta in H. destruct H as (Hran & _ & Hdiags & Hstate).
  cbv zeta. split; [exact Hran|]. split; [exact Hdiags|exact Hstate].
Defined.

Lemma Create_commands_unreadable_witness :
  let o := Create Machine.npm Machine.disk
             {| Plan_Get :=
                  ([], {| SourcePath := StringValue "/app";
                          Commands := ListUnknown;
                          Data := ListUnknown |}) |}
             Machine.fresh in
  ran o = [] /\ Diags (response o) = [] /\ State (response o) = None.
Proof.
  pose proof
    (Create_commands_unreadable (P := Machine.platform)
       Machine.npm Machine.disk Machine.fresh []
       {| SourcePath := StringValue "/app";
          Commands := ListUnknown;
          Data := ListUnknown |}
       "/app" []
       [NewErrorDiagnostic "Value Conversion Error" "Received unknown value"]
       eq_refl eq_refl eq_refl eq_refl eq_refl) as H.
  cbv zeta in H. destruct H as (Hran & _ & Hdiags & _ & Hstate).
  cbv zeta. split; [exact Hran|]. split; [exact Hdiags|exact Hstate].
Defined.

Lemma Cmd_String_of_command_witness :
  Cmd_String (command_of Machine.npm "/app" Machine.disk
                (StringValue "install --cache .npm"))
  = "/usr/bin/npm install --cache .npm".
Proof.
  refine (proj2
            (Cmd_String_of_command (P := Machine.platform)
               Machine.npm "/app" Machine.disk "install --cache .npm"
               eq_refl) _).
  vm_compute. repeat constructor.
Defined.


Lemma probed_executable_runs_the_commands_witness :
  let o := NextJSProvider_Configure Machine.disk
             {| Config_Get := ([], {| Executable := StringNull |}) |}
             {| cfg_Diags := []; ResourceData := any_nil |} in
  let configured :=
    BuildCommand_Configure NewBuildCommand (ResourceData (cfg_response o)) [] in
  ResourceData (cfg_response o) = any_string "npm"
  /\ executable (fst configured) = "npm"
  /\ snd configured = [].
Proof.
  pose proof
    (probed_executable_runs_the_commands (P := Machine.platform)
       Machine.disk
       {| Config_Get := ([], {| Executable := StringNull |}) |}
       {| cfg_Diags := []; ResourceData := any_nil |}
       NewBuildCommand [] eq_refl eq_refl) as H.
  cbv zeta in H. destruct H as (Hdata & Hexe & Hdiags & _).
  cbv zeta. split; [exact Hdata|]. split; [exact Hexe|exact Hdiags].
Defined.

Lemma unconfigured_resource_keeps_executable_witness :
  fst (BuildCommand_Configure NewBuildCommand (any_other "int") [])
  = NewBuildCommand
  /\ snd (BuildCommand_Configure NewBuildCommand (any_other "int") [])
     = [NewErrorDiagnostic "Unexpected Resource Configure Type"
          "Expected string, got: int. Please report this issue to the provider developers."].
Proof.
  assert (Hnot_string : forall s, any_other "int" <> any_string s)
    by (intros s H; discriminate H).
  pose proof
    (unconfigured_resource_keeps_executable (P := Machine.platform)
       NewBuildCommand (any_other "int") [] Hnot_string) as H.
  cbv zeta in H. destruct H as (Hr & _ & Hother & _).
  split; [exact Hr|]. exact (proj1 (Hother "int" eq_refl)).
Defined.

(** ** What a failed command leaves behind *)

Section NoRollback.

Context {P : Platform}.

(** X18. Nothing is rolled back.  When the commands [ok] succeed and the
    next one fails, the machine [Create] leaves is the machine the failed
    process left, and that process started on the machine the commands of
    [ok] had left: what the earlier commands did stays done. *)
Theorem Create_failure_keeps_side_effects
  (r : BuildCommand) (w : World) (resp : Response) (pdiags : Diagnostics)
  (data : BuildCommandModel) (src : string)
  (ok later : list tfString) (failing : tfString) (diags : Diagnostics)
  (err : error)
  (Hplan : HasError (Append (Diags resp) pdiags) = false)
  (Hsrc : SourcePath data = StringValue src)
  (Hexists : exists_ w src = (true, None))
  (Helems : ElementsAs (Commands data) = (ok ++ failing :: later, diags))
  (Hdiags : HasError diags = false)
  (Hok : loop_failed (run_commands r src ok w) = None)
  (Hfail : snd (cmd_Output (loop_world (run_commands r src ok w))
                  (command_of r src (loop_world (run_commands r src ok w))
                     failing))
           = Some err) :
  let before := run_commands r src ok w in
  let command := command_of r src (loop_world before) failing in
  world (Create r w {| Plan_Get := (pdiags, data) |} resp)
  = fst (fst (cmd_Output (loop_world before) command)).
Proof.
  cbv zeta. rewrite (Create_known_path r w resp pdiags data src Hplan Hsrc).
  cbv zeta. rewrite Hexists. cbn [negb is_some orb]. rewrite Helems, Hdiags.
  rewrite (run_commands_fail r src ok later failing err w Hok Hfail).
  reflexivity.
Qed.

End NoRollback.

Lemma Create_failure_keeps_side_effects_witness :
  let o := Create Machine.npm Machine.disk
             (Machine.plan ["run-script build"; "fail"]) Machine.fresh in
  world o = (Machine.state_file, Machine.state_text) :: Machine.disk.
Proof.
  exact (Create_failure_keeps_side_effects (P := Machine.platform)
           Machine.npm Machine.disk Machine.fresh []
           (snd (Plan_Get (Machine.plan ["run-script build"; "fail"])))
           "/app" [StringValue "run-script build"] [] (StringValue "fail") []
           Machine.exit1
           eq_refl eq_refl eq_refl eq_refl eq_refl eq_refl eq_refl).
Defined.
